(** * dispatch: the connection-handling core of a job-queue broker

    A shallow embedding of [main.go]: the command classifier [whichCmd], the
    dispatcher [doCmd], the body ingestion of [put], the status report
    [fmtStats], and the per-connection state machine [connData] /
    [handleConn], together with the parts of Go's standard library the
    program calls ([strconv.ParseUint], [bytes.Fields], [bytes.HasPrefix],
    [fmt.Sprintf], [bufio.Reader]).  State is passed explicitly: the
    package-level variables as a [Global], the connection as a [conn] that
    carries its socket.  The lines the program logs to standard output are
    left out. *)

From Stdlib Require Import ZArith Lia Strings.Byte Strings.String DecimalString.
From stdpp Require Import base decidable countable list gmap.

Open Scope Z_scope.

(** ** Byte strings

    A Go [[]byte] and a Go [string] are both sequences of bytes. *)

Definition bytes (s : string) : list byte := list_byte_of_string s.

#[global] Instance byte_eq_dec : EqDecision byte := Byte.byte_eq_dec.

Definition bval (c : byte) : Z := Z.of_N (Byte.to_N c).

Definition CR : byte := x0d.
Definition LF : byte := x0a.
Definition crlf : list byte := [CR; LF].

(** [bytes.HasPrefix]: [len(s) >= len(prefix) && Equal(s[:len(prefix)], prefix)]. *)
Definition HasPrefix (s prefix : list byte) : bool :=
  (length prefix <=? length s)%nat && bool_decide (take (length prefix) s = prefix).

(** [bytes.HasSuffix]: [len(s) >= len(suffix) && Equal(s[len(s)-len(suffix):], suffix)]. *)
Definition HasSuffix (s suffix : list byte) : bool :=
  (length suffix <=? length s)%nat
  && bool_decide (drop (length s - length suffix) s = suffix).

(** ** Machine integers: [uint64], [uint] and [int] are 64 bits wide. *)

Definition maxUint64 : Z := 18446744073709551615.

Definition wrap64 (z : Z) : Z := z mod 2 ^ 64.

Definition wrapInt (z : Z) : Z := (z + 2 ^ 63) mod 2 ^ 64 - 2 ^ 63.

(** ** strconv.ParseUint *)

Inductive numError := ErrSyntax | ErrRange.

(** [lower(c) = c | ('x' - 'X')]. *)
Definition lower (v : Z) : Z := Z.lor v 32.

(** The digit value of one byte, before the comparison with the base. *)
Definition digitOf (c : byte) : option Z :=
  let v := bval c in
  if (48 <=? v) && (v <=? 57) then Some (v - 48)
  else if (97 <=? lower v) && (lower v <=? 122) then Some (lower v - 97 + 10)
  else None.

(** The scanning loop of [ParseUint], [n] being the accumulator. *)
Fixpoint parseUintLoop (base cutoff maxVal n : Z) (s : list byte) : numError + Z :=
  match s with
  | [] => inr n
  | c :: s' =>
      match digitOf c with
      | None => inl ErrSyntax
      | Some d =>
          if base <=? d then inl ErrSyntax
          else if cutoff <=? n then inl ErrRange
          else
            let n0 := wrap64 (n * base) in
            let n1 := wrap64 (n0 + d) in
            if (n1 <? n0) || (maxVal <? n1) then inl ErrRange
            else parseUintLoop base cutoff maxVal n1 s'
      end
  end.

(** [strconv.ParseUint(s, base, bitSize)] for an explicit base between 2 and
    36 and a bit size between 1 and 64 (the program always passes 10 and 32):
    no sign, no prefix and no underscore is accepted. *)
Definition ParseUint (s : list byte) (base bitSize : Z) : numError + Z :=
  match s with
  | [] => inl ErrSyntax
  | _ => parseUintLoop base (maxUint64 / base + 1) (2 ^ bitSize - 1) 0 s
  end.

(** ** bytes.Fields *)

(** The [asciiSpace] table: tab, line feed, vertical tab, form feed,
    carriage return, space. *)
Definition asciiSpace (c : byte) : bool :=
  let v := bval c in
  ((9 <=? v) && (v <=? 13)) || (v =? 32).

(** Width in bytes of the white-space rune ([unicode.IsSpace]) that starts at
    the head of [s], 0 when none does.  Beyond the ASCII ones these are
    U+0085, U+00A0, U+1680, U+2000..U+200A, U+2028, U+2029, U+202F, U+205F
    and U+3000 in their UTF-8 encodings.  Their lead bytes are never
    continuation bytes, so a decoder that walks the slice rune by rune meets
    each of them at its first byte. *)
Definition spaceWidth (s : list byte) : nat :=
  match s with
  | [] => 0%nat
  | c :: s1 =>
      if asciiSpace c then 1%nat
      else
        match bval c, map bval (take 2 s1) with
        | 194, b1 :: _ => if (b1 =? 133) || (b1 =? 160) then 2%nat else 0%nat
        | 225, [154; 128] => 3%nat
        | 226, [128; b2] =>
            if ((128 <=? b2) && (b2 <=? 138)) || (b2 =? 168) || (b2 =? 169)
               || (b2 =? 175)
            then 3%nat else 0%nat
        | 226, [129; 159] => 3%nat
        | 227, [128; 128] => 3%nat
        | _, _ => 0%nat
        end
  end.

Definition flushField (cur : list byte) : list (list byte) :=
  match cur with [] => [] | _ => [cur] end.

(** [skip] counts the bytes of a multi-byte white-space rune still to pass;
    [cur] is the field being collected. *)
Fixpoint fieldsLoop (skip : nat) (cur s : list byte) : list (list byte) :=
  match s with
  | [] => flushField cur
  | c :: s' =>
      match skip with
      | S k => fieldsLoop k cur s'
      | O =>
          match spaceWidth s with
          | O => fieldsLoop 0 (cur ++ [c]) s'
          | S k => flushField cur ++ fieldsLoop k [] s'
          end
      end
  end.

(** [bytes.Fields(s)]: the maximal runs of bytes that are not white space. *)
Definition Fields (s : list byte) : list (list byte) := fieldsLoop 0 [] s.

(** ** fmt.Sprintf

    Only the verbs and operands the program uses: [%d] on an integer and
    [%s] on a string or byte slice.  Any other verb, or a verb without a
    matching operand, never occurs in the program and prints nothing here. *)

Inductive fmtArg :=
  | ArgInt (z : Z)
  | ArgBytes (s : list byte).

(** [%d]: the decimal numeral, with a minus sign when negative. *)
Definition fmtInt (z : Z) : list byte :=
  bytes (NilZero.string_of_int (Z.to_int z)).

Fixpoint Sprintf (f : list byte) (args : list fmtArg) : list byte :=
  match f with
  | [] => []
  | c :: f' =>
      if bool_decide (c = "%"%byte) then
        match f' with
        | [] => []
        | v :: f'' =>
            match args with
            | ArgInt z :: rest =>
                if bool_decide (v = "d"%byte) then fmtInt z ++ Sprintf f'' rest
                else Sprintf f'' rest
            | ArgBytes s :: rest =>
                if bool_decide (v = "s"%byte) then s ++ Sprintf f'' rest
                else Sprintf f'' rest
            | [] => Sprintf f'' []
            end
        end
      else c :: Sprintf f' args
  end.

(** ** The socket and bufio.Reader

    The peer's transmission is the sequence of chunks that successive
    [Read]s of the socket deliver, followed by end of file; a [net.Conn]
    never delivers zero bytes without an error, so empty chunks are passed
    over.  [writeErrs] scripts the outcome of the successive [Write]s:
    [Some k], the write fails after the first [k] bytes of the buffer have
    been sent; [None], or a script that is exhausted, it succeeds and the
    whole buffer is sent.  [outgoing] collects the bytes sent, those of a
    failed write included. *)

Record netConn := mkNetConn {
  incoming : list (list byte);
  writeErrs : list (option nat);
  outgoing : list byte;
  closed : bool
}.

(** [conn.Read(p)] with [len(p) = k]: [None] is an error (end of file). *)
Fixpoint sockRead (k : nat) (inc : list (list byte))
  : option (list byte * list (list byte)) :=
  match inc with
  | [] => None
  | [] :: rest => sockRead k rest
  | d :: rest =>
      Some (take k d, match drop k d with [] => rest | d' => d' :: rest end)
  end.

(** [conn.Write(b)] when it succeeds: the socket with the whole of [b] sent;
    [None] is an error. *)
Definition sockWrite (b : list byte) (s : netConn) : option netConn :=
  match writeErrs s with
  | Some _ :: errs => None
  | None :: errs =>
      Some (mkNetConn (incoming s) errs (outgoing s ++ b) (closed s))
  | [] => Some (mkNetConn (incoming s) [] (outgoing s ++ b) (closed s))
  end.

(** The part of [b] a failing [conn.Write(b)] has sent before the error. *)
Definition sentBeforeError (b : list byte) (s : netConn) : list byte :=
  match writeErrs s with
  | Some k :: _ => take k b
  | _ => []
  end.

(** What a failed write leaves behind: the part sent is with the peer, and
    the script moves on. *)
Definition sockWriteFailed (b : list byte) (s : netConn) : netConn :=
  mkNetConn (incoming s) (tail (writeErrs s))
            (outgoing s ++ sentBeforeError b s) (closed s).

(** [defaultBufSize] of [bufio.NewReader]. *)
Definition bufSize : nat := 4096.

(** Splits [buf] after the first [delim]. *)
Fixpoint cutLine (delim : byte) (buf : list byte) : option (list byte * list byte) :=
  match buf with
  | [] => None
  | c :: r =>
      if bool_decide (c = delim) then Some ([c], r)
      else match cutLine delim r with
           | Some (l, r') => Some (c :: l, r')
           | None => None
           end
  end.

(** [Reader.ReadBytes(delim)]: [buf] is the unread part [b.buf[b.r:b.w]] of
    the buffer, [acc] the full buffers collected so far.  Each round searches
    the buffer, hands a full buffer over to [acc], and fills the buffer with
    one [Read] of the socket.  The result is the line ([None] on a read
    error), the buffer and the socket input left; the outer [None] is fuel
    run out, which does not happen with the fuel [ReadBytes] gives
    ([readBytesLoop_fuel]). *)
Fixpoint readBytesLoop (fuel : nat) (delim : byte) (acc buf : list byte)
    (inc : list (list byte))
  : option (option (list byte) * list byte * list (list byte)) :=
  match fuel with
  | O => None
  | S fuel' =>
      match cutLine delim buf with
      | Some (l, r) => Some (Some (acc ++ l), r, inc)
      | None =>
          let acc1 := if (bufSize <=? length buf)%nat then acc ++ buf else acc in
          let buf1 := if (bufSize <=? length buf)%nat then [] else buf in
          match sockRead (bufSize - length buf1) inc with
          | None => Some (None, [], inc)
          | Some (d, inc') => readBytesLoop fuel' delim acc1 (buf1 ++ d) inc'
          end
      end
  end.

Definition ReadBytes (delim : byte) (buf : list byte) (inc : list (list byte))
  : option (list byte) * list byte * list (list byte) :=
  match readBytesLoop (S (length (concat inc))) delim [] buf inc with
  | Some r => r
  | None => (None, buf, inc)
  end.

(** [Reader.Read(p)] with [len(p) = k]: the bytes copied into [p], the buffer
    and the socket input left.  It reads the socket at most once, and not at
    all when the buffer holds something. *)
Definition bufRead (k : nat) (buf : list byte) (inc : list (list byte))
  : list byte * list byte * list (list byte) :=
  if (k =? 0)%nat then ([], buf, inc)
  else
    match buf with
    | [] =>
        if (bufSize <=? k)%nat then
          match sockRead k inc with
          | None => ([], [], inc)
          | Some (d, inc') => (d, [], inc')
          end
        else
          match sockRead bufSize inc with
          | None => ([], [], inc)
          | Some (d, inc') => (take k d, drop k d, inc')
          end
    | _ => (take k buf, drop k buf, inc)
    end.

(** * The program *)

Definition msgInsertedFmt : list byte := bytes "INSERTED %d" ++ crlf.
Definition msgBadFmt : list byte := bytes "BAD_FORMAT" ++ crlf.
Definition msgUnknownCommand : list byte := bytes "UNKNOWN_COMMAND" ++ crlf.
Definition msgExpectedCRLF : list byte := bytes "EXPECTED_CRLF" ++ crlf.

Inductive opType := opPut | opStats | opUse | opQuit | opUnknown.

#[global] Instance opType_eq_dec : EqDecision opType.
Proof. solve_decision. Defined.

Definition opType_to_nat (o : opType) : nat :=
  match o with
  | opPut => 0 | opStats => 1 | opUse => 2 | opQuit => 3 | opUnknown => 4
  end.

Definition opType_of_nat (n : nat) : option opType :=
  match n with
  | 0 => Some opPut | 1 => Some opStats | 2 => Some opUse | 3 => Some opQuit
  | 4 => Some opUnknown | _ => None
  end%nat.

#[global] Instance opType_countable : Countable opType.
Proof. apply (inj_countable opType_to_nat opType_of_nat). by intros []. Defined.

Definition cmdUse : list byte := bytes "use ".
Definition cmdUseLen : nat := length cmdUse.
Definition cmdPut : list byte := bytes "put ".
Definition cmdStats : list byte := bytes "stats".
Definition cmdQuit : list byte := bytes "quit".

Record stats := mkStats {
  urgentCount : Z;
  waitingCount : Z;
  buriedCount : Z;
  reservedCount : Z;
  pauseCount : Z;
  totalJobsCount : Z
}.

(** The package-level variables.  A key absent from [opCount] reads as 0. *)
Record Global := mkGlobal {
  opCount : gmap opType Z;
  curConnCount : Z;
  readyCount : Z;
  globalStat : stats
}.

Definition initGlobal : Global :=
  mkGlobal ∅ 0 0 (mkStats 0 0 0 0 0 0).

Definition opCountOf (g : Global) (op : opType) : Z := default 0 (opCount g !! op).

(** [opCount[op]++] *)
Definition incOpCount (op : opType) (g : Global) : Global :=
  mkGlobal (<[op := wrap64 (opCountOf g op + 1)]> (opCount g))
           (curConnCount g) (readyCount g) (globalStat g).

(** [globalStat.totalJobsCount++] *)
Definition incTotalJobs (g : Global) : Global :=
  let s := globalStat g in
  mkGlobal (opCount g) (curConnCount g) (readyCount g)
    (mkStats (urgentCount s) (waitingCount s) (buriedCount s) (reservedCount s)
       (pauseCount s) (wrap64 (totalJobsCount s + 1))).

Definition setCurConnCount (n : Z) (g : Global) : Global :=
  mkGlobal (opCount g) n (readyCount g) (globalStat g).

Inductive connState :=
  | connStateWantCommand
  | connStateSendWord
  | connStateSendJob
  | connStateClose.

#[global] Instance connState_eq_dec : EqDecision connState.
Proof. solve_decision. Defined.

Record job := mkJob {
  pri : Z;
  delay : Z;
  ttr : Z;
  bodySize : Z;
  body : list byte
}.

Definition makeJob (pri delay ttr bodySize : Z) : job :=
  mkJob pri delay ttr bodySize (replicate (Z.to_nat bodySize) x00).

(** The [conn] struct.  Its field [conn] is [sock] here and its field [reply]
    is [replyBuf]; [reader] is the unread content of the [bufio.Reader] on
    the socket.  The fields [cmdLen], [cmdRead] and [inJobRead] are never
    written nor read by the program and are left out. *)
Record conn := mkConn {
  sock : netConn;
  state : connState;
  reader : list byte;
  cmd : list byte;
  replyBuf : list byte;
  inJob : option job
}.

Definition setState (st : connState) (c : conn) : conn :=
  mkConn (sock c) st (reader c) (cmd c) (replyBuf c) (inJob c).

Definition setInJob (j : option job) (c : conn) : conn :=
  mkConn (sock c) (state c) (reader c) (cmd c) (replyBuf c) j.

Definition setCmd (l : list byte) (c : conn) : conn :=
  mkConn (sock c) (state c) (reader c) l (replyBuf c) (inJob c).

Definition setSock (s : netConn) (c : conn) : conn :=
  mkConn s (state c) (reader c) (cmd c) (replyBuf c) (inJob c).

Definition setInput (buf : list byte) (inc : list (list byte)) (c : conn) : conn :=
  mkConn (mkNetConn inc (writeErrs (sock c)) (outgoing (sock c)) (closed (sock c)))
         (state c) buf (cmd c) (replyBuf c) (inJob c).

(** [makeConn]: one more connection, and a fresh reader on the socket. *)
Definition makeConn (s : netConn) (initialState : connState) (g : Global)
  : Global * conn :=
  (setCurConnCount (wrapInt (curConnCount g + 1)) g,
   mkConn s initialState [] [] [] None).

Definition reply (c : conn) (msg : list byte) (st : connState) : conn :=
  mkConn (sock c) st (reader c) (cmd c) msg (inJob c).

Definition replyMsg (c : conn) (msg : list byte) : conn :=
  reply c msg connStateSendWord.

Definition replyLine (c : conn) (st : connState) (f : list byte)
    (data : list fmtArg) : conn :=
  reply c (Sprintf f data) st.

Definition whichCmd (cmd : list byte) : opType :=
  if HasPrefix cmd cmdPut then opPut
  else if HasPrefix cmd cmdStats then opStats
  else if HasPrefix cmd cmdUse then opUse
  else if HasPrefix cmd cmdQuit then opQuit
  else opUnknown.

Definition countCurConns (g : Global) : Z := curConnCount g.

Definition getDelayedJobCount : Z := 0.

Definition statsFmt : list byte :=
  bytes "---" ++ [LF]
  ++ bytes "current-jobs-urgent: %d" ++ [LF]
  ++ bytes "current-jobs-ready: %d" ++ [LF]
  ++ bytes "current-jobs-reserved: %d" ++ [LF]
  ++ bytes "current-jobs-delayed: %d" ++ [LF]
  ++ bytes "current-jobs-buried: %d" ++ [LF]
  ++ bytes "cmd-put: %d" ++ [LF]
  ++ bytes "cmd-use: %d" ++ [LF]
  ++ bytes "cmd-stats: %d" ++ [LF]
  ++ bytes "current-connections: %d" ++ [LF].

(** The operands [fmtStats] hands to [Sprintf], in order. *)
Definition fmtStatsArgs (g : Global) : list fmtArg :=
  [ ArgInt (urgentCount (globalStat g));
    ArgInt (readyCount g);
    ArgInt (reservedCount (globalStat g));
    ArgInt getDelayedJobCount;
    ArgInt (buriedCount (globalStat g));
    ArgInt (opCountOf g opPut);
    ArgInt (opCountOf g opUse);
    ArgInt (opCountOf g opStats);
    ArgInt (countCurConns g) ].

Definition fmtStats (g : Global) : list byte :=
  Sprintf statsFmt (fmtStatsArgs g).

Definition doStats (g : Global) (c : conn) (fmtFn : Global -> list byte) : conn :=
  let res := fmtFn g in
  replyLine c connStateSendJob (bytes "OK %s" ++ crlf) [ArgBytes res].

(** [doCmd] calls this with the job it has just read the body of; there is
    no call with [inJob] unset. *)
Definition enqueueIncomingJob (g : Global) (c : conn) : Global * conn :=
  match inJob c with
  | None => (g, c)
  | Some j =>
      let c := setInJob None c in
      if negb (HasSuffix (body j) crlf) then (g, replyMsg c msgExpectedCRLF)
      else
        let g := incTotalJobs g in
        let id := 1 in
        (g, replyLine c connStateSendWord msgInsertedFmt [ArgInt id])
  end.

Definition setBody (b : list byte) (j : job) : job :=
  mkJob (pri j) (delay j) (ttr j) (bodySize j) b.

(** The first part of the [opPut] case of [doCmd], up to the allocation of
    the job: the split into fields, the four parses, the command counter and
    the floor on the time to run.  [None] stands for each of the early
    returns that reply [msgBadFmt]. *)
Definition putJob (msgType : opType) (g : Global) (c : conn)
  : option (Global * conn) :=
  let fields := Fields (cmd c) in
  if negb (length fields =? 5)%nat then None
  else
    match ParseUint (nth 1 fields []) 10 32 with
    | inl _ => None
    | inr pri =>
    match ParseUint (nth 2 fields []) 10 32 with
    | inl _ => None
    | inr delay =>
    match ParseUint (nth 3 fields []) 10 32 with
    | inl _ => None
    | inr ttr =>
    match ParseUint (nth 4 fields []) 10 32 with
    | inl _ => None
    | inr bodySize =>
        let g := incOpCount msgType g in
        let ttr := if ttr <? 1000000000 then 1000000000 else ttr in
        Some (g, setInJob (Some (makeJob pri delay ttr (wrap64 (bodySize + 2)))) c)
    end end end end.

(** The second part of the [opPut] case: one [Read] into the body of the
    job, the check of the count read, and the hand-over to
    [enqueueIncomingJob]. *)
Definition putBody (g : Global) (c : conn) : Global * conn :=
  match inJob c with
  | None => (g, c)
  | Some j =>
      let '(data, buf', inc') :=
        bufRead (length (body j)) (reader c) (incoming (sock c)) in
      let nbRead := length data in
      let c := setInput buf' inc'
                 (setInJob (Some (setBody (data ++ drop nbRead (body j)) j)) c) in
      if negb (nbRead =? length (body j))%nat then (g, replyMsg c msgBadFmt)
      else enqueueIncomingJob g c
  end.

Definition doCmd (g : Global) (c : conn) : Global * conn :=
  let msgType := whichCmd (cmd c) in
  match msgType with
  | opPut =>
      match putJob msgType g c with
      | None => (g, replyMsg c msgBadFmt)
      | Some (g, c) => putBody g c
      end
  | opStats =>
      let g := incOpCount msgType g in
      (g, doStats g c fmtStats)
  | opUse =>
      let name := drop cmdUseLen (cmd c) in
      let g := incOpCount msgType g in
      (g, replyLine c connStateSendWord (bytes "USING %s" ++ crlf) [ArgBytes name])
  | opQuit => (g, setState connStateClose c)
  | opUnknown => (g, replyMsg c msgUnknownCommand)
  end.

Definition resetConn (c : conn) : conn := setState connStateWantCommand c.

Definition wantCommand (c : conn) : bool :=
  bool_decide (state c = connStateWantCommand).

(** What one call of [connData] does on the connection, as seen from
    outside: a command line read and dispatched, with the reply the
    dispatcher left to be sent (none when it closes instead); a failed read;
    a reply written in full; a failed write, with the part of the reply
    that was sent before the error; the socket closed. *)
Inductive event :=
  | EvCommand (line : list byte) (queued : option (list byte))
  | EvReadErr
  | EvWrite (b : list byte)
  | EvWriteErr (sent : list byte)
  | EvClose.

Definition queuedReply (c : conn) : option (list byte) :=
  match state c with
  | connStateSendWord | connStateSendJob => Some (replyBuf c)
  | _ => None
  end.

Definition connData (g : Global) (c : conn) : Global * conn * list event :=
  match state c with
  | connStateWantCommand =>
      match ReadBytes LF (reader c) (incoming (sock c)) with
      | (None, buf, inc) =>
          (g, setState connStateClose (setInput buf inc c), [EvReadErr])
      | (Some r, buf, inc) =>
          let '(g, c) := doCmd g (setCmd r (setInput buf inc c)) in
          (g, c, [EvCommand r (queuedReply c)])
      end
  | connStateSendWord | connStateSendJob =>
      match sockWrite (replyBuf c) (sock c) with
      | None =>
          (g, setState connStateClose
                (setSock (sockWriteFailed (replyBuf c) (sock c)) c),
           [EvWriteErr (sentBeforeError (replyBuf c) (sock c))])
      | Some s => (g, resetConn (setSock s c), [EvWrite (replyBuf c)])
      end
  | connStateClose => (g, c, [])
  end.

Definition connClose (g : Global) (c : conn) : Global * conn :=
  let s := sock c in
  (setCurConnCount (wrapInt (curConnCount g - 1)) g,
   setSock (mkNetConn (incoming s) (writeErrs s) (outgoing s) true) c).

(** [handleConn]: the loop runs until the connection is in the state
    [connStateClose]; [fuel] bounds the number of rounds and the final
    boolean tells whether the loop has returned. *)
Fixpoint handleConn (fuel : nat) (g : Global) (c : conn)
  : Global * conn * list event * bool :=
  match fuel with
  | O => (g, c, [], false)
  | S fuel' =>
      let '(g1, c1, ev) := connData g c in
      if bool_decide (state c1 = connStateClose) then
        let '(g2, c2) := connClose g1 c1 in
        (g2, c2, ev ++ [EvClose], true)
      else
        let '(g3, c3, tr, fin) := handleConn fuel' g1 c1 in
        (g3, c3, ev ++ tr, fin)
  end.

(** A client that sends [chunks] and then closes its side. *)
Definition client (chunks : list (list byte)) : netConn :=
  mkNetConn chunks [] [] false.

(** A whole session on a fresh process: accept, then [handleConn]. *)
Definition session (fuel : nat) (chunks : list (list byte))
  : Global * conn * list event * bool :=
  let '(g, c) := makeConn (client chunks) connStateWantCommand initGlobal in
  handleConn fuel g c.

(** The bytes the session wrote to the client. *)
Definition sessionOutput (fuel : nat) (chunks : list (list byte)) : list byte :=
  outgoing (sock (snd (fst (fst (session fuel chunks))))).

(** ** The process: the listener and its handlers

    [main] accepts sockets and starts one [handleConn] per socket; the
    handlers share the package-level variables.  A step of the process is an
    accept, one call of [connData] by a live handler, or the [connClose] of a
    handler whose connection reached [connStateClose], after which the
    handler is gone.

    The handlers are goroutines, and the program guards none of its updates
    of [opCount], [curConnCount] and [globalStat.totalJobsCount]: each is a
    read followed by a write, and two handlers can interleave them, so that
    an update is lost.  The first three steps take a whole [makeConn],
    [connData] or [connClose] at once; the fourth, [StepRace], stands for
    what such interleavings do to the three counters, and allows every
    outcome: the counters of the next state are any values at all.  The
    other variables are left as they are, since no statement of the program
    assigns to them.  What holds of every [reachable] state therefore holds
    whatever the handlers' interleaving; nothing that depends on the value
    of a counter does. *)

(** The package-level variables with the three counters that are updated
    with no lock replaced. *)
Definition raced (oc : gmap opType Z) (n total : Z) (g : Global) : Global :=
  let s := globalStat g in
  mkGlobal oc n (readyCount g)
    (mkStats (urgentCount s) (waitingCount s) (buriedCount s) (reservedCount s)
       (pauseCount s) total).

Record process := mkProcess {
  glob : Global;
  handlers : list conn
}.

Definition initProcess : process := mkProcess initGlobal [].

Inductive procStep : process -> process -> Prop :=
  | StepAccept p s g c :
      makeConn s connStateWantCommand (glob p) = (g, c) ->
      procStep p (mkProcess g (handlers p ++ [c]))
  | StepData p i c g c' ev :
      handlers p !! i = Some c ->
      state c <> connStateClose ->
      connData (glob p) c = (g, c', ev) ->
      procStep p (mkProcess g (<[i := c']> (handlers p)))
  | StepClose p i c g c' :
      handlers p !! i = Some c ->
      state c = connStateClose ->
      connClose (glob p) c = (g, c') ->
      procStep p (mkProcess g (delete i (handlers p)))
  | StepRace p oc n total :
      procStep p (mkProcess (raced oc n total (glob p)) (handlers p)).

Inductive reachable : process -> Prop :=
  | ReachInit : reachable initProcess
  | ReachStep p q : reachable p -> procStep p q -> reachable q.

(** The five job-state gauges as [fmtStats] reads them. *)
Definition jobGauges (g : Global) : list Z :=
  [ urgentCount (globalStat g); readyCount g; reservedCount (globalStat g);
    getDelayedJobCount; buriedCount (globalStat g) ].

(** ** Notions used in the statements *)

(** The input not yet consumed on a connection: what the reader has
    buffered, then what the socket still holds. *)
Definition remaining (c : conn) : list byte :=
  reader c ++ concat (incoming (sock c)).

(** The bytes the one [Read] of [putBody] delivers for a body of [k] bytes. *)
Definition bodyRead (k : nat) (c : conn) : list byte :=
  fst (fst (bufRead k (reader c) (incoming (sock c)))).

Definition isDigit (c : byte) : bool := (48 <=? bval c) && (bval c <=? 57).

(** A decimal numeral: one digit or more, nothing else. *)
Definition isDecimal (s : list byte) : bool :=
  negb (bool_decide (s = [])) && forallb isDigit s.

(** The number a string of digits denotes, continuing from [n]. *)
Definition decValueFrom (n : Z) (s : list byte) : Z :=
  fold_left (fun acc c => acc * 10 + (bval c - 48)) s n.

Definition decValue (s : list byte) : Z := decValueFrom 0 s.

Definition maxUint32 : Z := 4294967295.

(** The reply to a successful submission. *)
Definition msgInserted : list byte := Sprintf msgInsertedFmt [ArgInt 1].

(** One line of the status report. *)
Definition statLine (key : string) (v : Z) : list byte :=
  bytes key ++ bytes ": " ++ fmtInt v ++ [LF].

(** The phases of a connection as its events show them. *)
Inductive phase :=
  | Idle
  | Replying (r : list byte)
  | Closing
  | Finished.

(** Strict alternation: a command is read only in [Idle]; the reply it left
    is the next thing to happen, written whole, and only then is the
    connection [Idle] again; a failed write has sent a front part of that
    reply at most; a command without reply, a failed read and a failed
    write are followed by the close and nothing else. *)
Fixpoint alternates (ph : phase) (tr : list event) : bool :=
  match tr with
  | [] => true
  | e :: tr' =>
      match ph, e with
      | Idle, EvCommand _ (Some r) => alternates (Replying r) tr'
      | Idle, EvCommand _ None => alternates Closing tr'
      | Idle, EvReadErr => alternates Closing tr'
      | Replying r, EvWrite b => bool_decide (b = r) && alternates Idle tr'
      | Replying r, EvWriteErr p =>
          bool_decide (p = take (length p) r) && alternates Closing tr'
      | Closing, EvClose => alternates Finished tr'
      | _, _ => false
      end
  end.

(** The phase a connection is in, from its state. *)
Definition phaseOf (c : conn) : phase :=
  match state c with
  | connStateWantCommand => Idle
  | connStateSendWord | connStateSendJob => Replying (replyBuf c)
  | connStateClose => Closing
  end.

(** The bytes sent, in order: the replies written in full and the part of
    a reply that a failed write got out. *)
Fixpoint written (tr : list event) : list byte :=
  match tr with
  | [] => []
  | EvWrite b :: tr' => b ++ written tr'
  | EvWriteErr p :: tr' => p ++ written tr'
  | _ :: tr' => written tr'
  end.

(** The rounds a connection still needs at most: two per byte of input left,
    and those to send the reply at hand and to close. *)
Definition roundsBound (c : conn) : nat :=
  match state c with
  | connStateWantCommand => 2 * length (remaining c) + 2
  | connStateSendWord | connStateSendJob => 2 * length (remaining c) + 3
  | connStateClose => 1
  end.

(** Following the words of the specification: the leading token of a command
    line is its first white-space-delimited field. *)
Definition spec_leadingToken (line : list byte) : list byte :=
  nth 0 (Fields line) [].

(** Following the words of the specification: the keywords the leading token
    is matched against. *)
Definition spec_keywords : list (list byte) :=
  [bytes "put"; bytes "stats"; bytes "use"; bytes "quit"].

(** Following the words of the specification: the status reply announces the
    length of the report, [OK <n>], then the [n] bytes of the report on
    their own line. *)
Definition spec_statsReply (report : list byte) : list byte :=
  bytes "OK " ++ fmtInt (Z.of_nat (length report)) ++ crlf ++ report ++ crlf.

(** The line of the connection splits into five fields and the last four
    parse: the condition under which [putJob] allocates a job. *)
Definition fieldsParse (c : conn) : Prop :=
  exists (f0 f1 f2 f3 f4 : list byte) (p d t B : Z),
    Fields (cmd c) = [f0; f1; f2; f3; f4]
    /\ ParseUint f1 10 32 = inr p /\ ParseUint f2 10 32 = inr d
    /\ ParseUint f3 10 32 = inr t /\ ParseUint f4 10 32 = inr B.

(** ** Fresh sessions

    The first steps of a connection the listener has just accepted on a
    process that has served nothing yet. *)

(** The connection and the variables right after [makeConn]. *)
Definition accepted (chunks : list (list byte)) : Global * conn :=
  makeConn (client chunks) connStateWantCommand initGlobal.

(** The connection as [connData] hands it to [doCmd]: the line is read and
    stored in [cmd]; [None] when the read fails. *)
Definition readCommand (c : conn) : option conn :=
  match ReadBytes LF (reader c) (incoming (sock c)) with
  | (Some r, buf, inc) => Some (setCmd r (setInput buf inc c))
  | (None, _, _) => None
  end.

(** The first call of [connData] on a fresh session. *)
Definition firstRound (chunks : list (list byte)) : Global * conn * list event :=
  connData (accepted chunks).1 (accepted chunks).2.

(** The job [putJob] allocates for the first command of a fresh session. *)
Definition firstJob (chunks : list (list byte)) : option job :=
  c1 ← readCommand (accepted chunks).2;
  gc ← putJob opPut (accepted chunks).1 c1;
  inJob gc.2.

(** A submission of 5000 bytes, sent in one piece. *)
Definition largePut : list byte :=
  bytes "put 1 0 5 5000" ++ crlf ++ replicate 5000 "a"%byte ++ crlf.

(** ** Notions for the further properties *)

(** The number of times the socket is closed in a run of events. *)
Fixpoint closeCount (tr : list event) : nat :=
  match tr with
  | [] => 0%nat
  | EvClose :: tr' => S (closeCount tr')
  | _ :: tr' => closeCount tr'
  end.





(** * Properties *)

(** ** strconv.ParseUint in base 10 on 32 bits *)

Lemma digitOf_digit (c : byte) :
  isDigit c = true -> digitOf c = Some (bval c - 48) /\ 0 <= bval c - 48 <= 9.
Proof.
  unfold isDigit, digitOf. intros H. cbv zeta. rewrite H.
  split; [reflexivity|]. apply andb_true_iff in H. lia.
Qed.

Lemma decValueFrom_cons (n : Z) (c : byte) (s : list byte) :
  decValueFrom n (c :: s) = decValueFrom (n * 10 + (bval c - 48)) s.
Proof. reflexivity. Qed.

Lemma decValueFrom_mono (s : list byte) (n : Z) :
  forallb isDigit s = true -> 0 <= n -> n <= decValueFrom n s.
Proof.
  revert n. induction s as [|c s IH]; intros n Hd Hn; [simpl; unfold decValueFrom; simpl; lia|].
  simpl in Hd. apply andb_true_iff in Hd as [Hc Hs].
  rewrite decValueFrom_cons.
  destruct (digitOf_digit c Hc) as [_ Hr].
  specialize (IH (n * 10 + (bval c - 48)) Hs). lia.
Qed.

Lemma parseUintLoop_digits (s : list byte) (n : Z) :
  forallb isDigit s = true -> 0 <= n <= maxUint32 ->
  parseUintLoop 10 (maxUint64 / 10 + 1) (2 ^ 32 - 1) n s
  = if decValueFrom n s <=? maxUint32 then inr (decValueFrom n s)
    else inl ErrRange.
Proof.
  revert n. induction s as [|c s IH]; intros n Hd Hn.
  - unfold decValueFrom; simpl.
    destruct (Z.leb_spec n maxUint32); [reflexivity | lia].
  - simpl in Hd. apply andb_true_iff in Hd as [Hc Hs].
    destruct (digitOf_digit c Hc) as [Hdig Hr].
    rewrite decValueFrom_cons. cbn [parseUintLoop]. rewrite Hdig.
    unfold maxUint32 in *.
    destruct (Z.leb_spec 10 (bval c - 48)); [lia|].
    destruct (Z.leb_spec (maxUint64 / 10 + 1) n) as [Hcut|_].
    { unfold maxUint64 in Hcut. change (18446744073709551615 / 10 + 1) with 1844674407370955162 in Hcut. lia. }
    cbv zeta.
    assert (Hw0 : wrap64 (n * 10) = n * 10).
    { unfold wrap64. apply Z.mod_small. lia. }
    rewrite Hw0.
    assert (Hw1 : wrap64 (n * 10 + (bval c - 48)) = n * 10 + (bval c - 48)).
    { unfold wrap64. apply Z.mod_small. lia. }
    rewrite Hw1.
    destruct (Z.ltb_spec (n * 10 + (bval c - 48)) (n * 10)); [lia|].
    change (2 ^ 32 - 1) with 4294967295.
    destruct (Z.ltb_spec 4294967295 (n * 10 + (bval c - 48))) as [Hbig|Hsmall]; cbn [orb].
    + pose proof (decValueFrom_mono s (n * 10 + (bval c - 48)) Hs ltac:(lia)).
      destruct (Z.leb_spec (decValueFrom (n * 10 + (bval c - 48)) s) 4294967295); [lia|reflexivity].
    + change 4294967295 with (2 ^ 32 - 1) at 1. apply IH; [assumption|lia].
Qed.

Lemma parseUintLoop_bound (base cutoff maxVal : Z) (s : list byte) (n v : Z) :
  0 <= n <= maxVal ->
  parseUintLoop base cutoff maxVal n s = inr v -> 0 <= v <= maxVal.
Proof.
  revert n. induction s as [|c s IH]; intros n Hn H; simpl in H.
  - injection H as <-. exact Hn.
  - destruct (digitOf c) as [d|]; [|discriminate].
    destruct (base <=? d); [discriminate|].
    destruct (cutoff <=? n); [discriminate|].
    cbv zeta in H.
    destruct (Z.ltb_spec (wrap64 (wrap64 (n * base) + d)) (wrap64 (n * base))); [discriminate|].
    destruct (Z.ltb_spec maxVal (wrap64 (wrap64 (n * base) + d))); [discriminate|].
    cbn [orb] in H. apply IH in H; [exact H|].
    split; [|assumption].
    unfold wrap64. apply Z.mod_pos_bound. lia.
Qed.

(** A decimal numeral parses to its value when that fits 32 bits and is out
    of range otherwise. *)
Lemma ParseUint_decimal (s : list byte) :
  isDecimal s = true ->
  ParseUint s 10 32
  = if decValue s <=? maxUint32 then inr (decValue s) else inl ErrRange.
Proof.
  unfold isDecimal. intros H. apply andb_true_iff in H as [Hne Hd].
  destruct s as [|c s]; [discriminate|].
  unfold ParseUint, decValue.
  apply (parseUintLoop_digits (c :: s) 0 Hd). unfold maxUint32. lia.
Qed.

(** What parses lies within 32 bits. *)
Lemma ParseUint_bound (s : list byte) (v : Z) :
  ParseUint s 10 32 = inr v -> 0 <= v <= maxUint32.
Proof.
  unfold ParseUint. destruct s as [|c s]; [discriminate|].
  intros H. apply parseUintLoop_bound in H; [exact H|]. lia.
Qed.

(** The value of a numeral, the fields of a command line. *)
Example ParseUint_samples :
  ParseUint (bytes "007") 10 32 = inr 7
  /\ ParseUint (bytes "4294967295") 10 32 = inr 4294967295
  /\ ParseUint (bytes "4294967296") 10 32 = inl ErrRange
  /\ ParseUint (bytes "+7") 10 32 = inl ErrSyntax
  /\ ParseUint (bytes "abc") 10 32 = inl ErrSyntax
  /\ ParseUint [] 10 32 = inl ErrSyntax.
Proof. repeat split; reflexivity. Qed.

Example Fields_samples :
  Fields (bytes "put 1 0 5 5" ++ crlf)
  = [bytes "put"; bytes "1"; bytes "0"; bytes "5"; bytes "5"]
  /\ Fields (bytes "  put   1 ") = [bytes "put"; bytes "1"]
  /\ Fields (bytes "a" ++ [xc2; xa0] ++ bytes "b") = [bytes "a"; bytes "b"]
  /\ Fields crlf = [].
Proof. repeat split; reflexivity. Qed.

(** ** The socket and the reader *)

Lemma sockRead_some (k : nat) (inc : list (list byte)) (d : list byte)
    (inc' : list (list byte)) :
  (0 < k)%nat -> sockRead k inc = Some (d, inc') ->
  concat inc = d ++ concat inc' /\ (0 < length d <= k)%nat.
Proof.
  intros Hk. induction inc as [|ch rest IH]; intros H; [discriminate|].
  destruct ch as [|b r]; [exact (IH H)|].
  cbn [sockRead] in H. injection H as <- <-.
  split.
  - cbn [concat]. rewrite <- (take_drop k (b :: r)) at 1.
    destruct (drop k (b :: r)) as [|x y] eqn:E.
    + rewrite app_nil_r. reflexivity.
    + cbn [concat]. rewrite <- app_assoc. reflexivity.
  - rewrite length_take. destruct k; [lia|]. cbn [length]. lia.
Qed.

Lemma sockRead_none (k : nat) (inc : list (list byte)) :
  sockRead k inc = None -> concat inc = [].
Proof.
  induction inc as [|ch rest IH]; intros H; [reflexivity|].
  destruct ch as [|b r]; [exact (IH H)|discriminate].
Qed.

Lemma cutLine_some (delim : byte) (buf l r : list byte) :
  cutLine delim buf = Some (l, r) ->
  buf = l ++ r /\ exists l0, l = l0 ++ [delim] /\ delim ∉ l0.
Proof.
  revert l. induction buf as [|c buf IH]; intros l H; [discriminate|].
  cbn [cutLine] in H. case_bool_decide as Hc.
  - injection H as <- <-. subst c. split; [reflexivity|].
    exists []. split; [reflexivity|]. apply not_elem_of_nil.
  - destruct (cutLine delim buf) as [[l1 r1]|]; [|discriminate].
    injection H as <- <-. destruct (IH l1 eq_refl) as [-> (l0 & -> & Hn)].
    split; [reflexivity|]. exists (c :: l0). split; [reflexivity|].
    rewrite elem_of_cons. intros [E|E]; [congruence|contradiction].
Qed.

(** The fuel [ReadBytes] starts with is never used up: every round that goes
    on has taken at least one byte from the socket. *)
Lemma readBytesLoop_fuel (fuel : nat) (delim : byte) (acc buf : list byte)
    (inc : list (list byte)) :
  (length (concat inc) < fuel)%nat ->
  is_Some (readBytesLoop fuel delim acc buf inc).
Proof.
  revert acc buf inc. induction fuel as [|fuel IH]; intros acc buf inc Hf; [lia|].
  cbn [readBytesLoop]. destruct (cutLine delim buf) as [[l r]|]; [eauto|].
  cbv zeta.
  set (buf1 := if (bufSize <=? length buf)%nat then [] else buf).
  assert (Hk : (0 < bufSize - length buf1)%nat).
  { subst buf1. destruct (Nat.leb_spec bufSize (length buf));
      [cbn [length]; unfold bufSize|]; lia. }
  destruct (sockRead (bufSize - length buf1) inc) as [[d inc']|] eqn:E; [|eauto].
  apply IH. apply sockRead_some in E as [E1 E2]; [|exact Hk].
  rewrite E1, length_app in Hf. lia.
Qed.

(** [ReadBytes] loses nothing: the line it returns, what it leaves in the
    buffer and what the socket still holds make up the input it started
    from, and the line ends at its first line feed. *)
Lemma readBytesLoop_line (fuel : nat) (delim : byte) (acc buf : list byte)
    (inc : list (list byte)) (line buf' : list byte) (inc' : list (list byte)) :
  readBytesLoop fuel delim acc buf inc = Some (Some line, buf', inc') ->
  delim ∉ acc ->
  acc ++ buf ++ concat inc = line ++ buf' ++ concat inc'
  /\ exists l0, line = l0 ++ [delim] /\ delim ∉ l0.
Proof.
  revert acc buf inc. induction fuel as [|fuel IH]; intros acc buf inc H Hacc;
    [discriminate|].
  cbn [readBytesLoop] in H. destruct (cutLine delim buf) as [[l r]|] eqn:Ec.
  - injection H as <- <- <-. apply cutLine_some in Ec as [-> (l0 & -> & Hn)].
    split; [by rewrite !app_assoc|].
    exists (acc ++ l0). split; [by rewrite app_assoc|].
    rewrite elem_of_app. tauto.
  - cbv zeta in H.
    assert (Hbuf : delim ∉ buf).
    { clear -Ec. induction buf as [|c buf IHb]; [apply not_elem_of_nil|].
      cbn [cutLine] in Ec. case_bool_decide as Hc; [discriminate|].
      destruct (cutLine delim buf) as [[l1 r1]|]; [discriminate|].
      rewrite elem_of_cons. intros [E|E]; [congruence|]. by apply IHb. }
    destruct (Nat.leb_spec bufSize (length buf)) as [Hfull|Hroom].
    + destruct (sockRead (bufSize - length (@nil byte)) inc) as [[d inc1]|] eqn:E;
        [|discriminate].
      apply IH in H; [|rewrite elem_of_app; tauto].
      destruct H as [H1 H2]. split; [|exact H2]. rewrite <- H1.
      apply sockRead_some in E as [E1 _]; [|cbn [length]; unfold bufSize; lia].
      rewrite E1. cbn [app]. by rewrite <- !app_assoc.
    + destruct (sockRead (bufSize - length buf) inc) as [[d inc1]|] eqn:E;
        [|discriminate].
      apply IH in H; [|exact Hacc].
      destruct H as [H1 H2]. split; [|exact H2]. rewrite <- H1.
      apply sockRead_some in E as [E1 _]; [|lia].
      rewrite E1. by rewrite <- !app_assoc.
Qed.

Lemma ReadBytes_line (delim : byte) (buf : list byte) (inc : list (list byte))
    (line buf' : list byte) (inc' : list (list byte)) :
  ReadBytes delim buf inc = (Some line, buf', inc') ->
  buf ++ concat inc = line ++ buf' ++ concat inc'
  /\ exists l0, line = l0 ++ [delim] /\ delim ∉ l0.
Proof.
  unfold ReadBytes. intros H.
  destruct (readBytesLoop_fuel (S (length (concat inc))) delim [] buf inc) as [r Hr];
    [lia|].
  rewrite Hr in H. subst r.
  apply readBytesLoop_line in Hr; [exact Hr|apply not_elem_of_nil].
Qed.

(** A failed [ReadBytes] has met no delimiter in the input. *)
Lemma readBytesLoop_error (fuel : nat) (delim : byte) (acc buf : list byte)
    (inc : list (list byte)) (buf' : list byte) (inc' : list (list byte)) :
  readBytesLoop fuel delim acc buf inc = Some (None, buf', inc') ->
  delim ∉ buf ++ concat inc.
Proof.
  revert acc buf inc. induction fuel as [|fuel IH]; intros acc buf inc H;
    [discriminate|].
  cbn [readBytesLoop] in H. destruct (cutLine delim buf) as [[l r]|] eqn:Ec;
    [discriminate|].
  assert (Hbuf : delim ∉ buf).
  { clear -Ec. induction buf as [|c buf IHb]; [apply not_elem_of_nil|].
    cbn [cutLine] in Ec. case_bool_decide as Hc; [discriminate|].
    destruct (cutLine delim buf) as [[l1 r1]|]; [discriminate|].
    rewrite elem_of_cons. intros [E|E]; [congruence|]. by apply IHb. }
  cbv zeta in H.
  set (buf1 := if (bufSize <=? length buf)%nat then [] else buf) in *.
  assert (Hk : (0 < bufSize - length buf1)%nat).
  { subst buf1. destruct (Nat.leb_spec bufSize (length buf));
      [cbn [length]; unfold bufSize|]; lia. }
  destruct (sockRead (bufSize - length buf1) inc) as [[d inc1]|] eqn:E.
  - apply IH in H. apply sockRead_some in E as [E1 _]; [|exact Hk].
    rewrite E1. rewrite not_elem_of_app. split; [exact Hbuf|].
    rewrite <- app_assoc in H. rewrite not_elem_of_app in H. tauto.
  - apply sockRead_none in E. rewrite E, app_nil_r. exact Hbuf.
Qed.

(** [Read] copies a prefix of the input that is left, at most [k] bytes. *)
Lemma bufRead_spec (k : nat) (buf : list byte) (inc : list (list byte))
    (data buf' : list byte) (inc' : list (list byte)) :
  bufRead k buf inc = (data, buf', inc') ->
  buf ++ concat inc = data ++ buf' ++ concat inc' /\ (length data <= k)%nat.
Proof.
  unfold bufRead. destruct (Nat.eqb_spec k 0) as [->|Hk].
  { intros [= <- <- <-]. split; [reflexivity|cbn; lia]. }
  destruct buf as [|b buf].
  - destruct (Nat.leb_spec bufSize k) as [Hbig|Hsmall].
    + destruct (sockRead k inc) as [[d inc1]|] eqn:E; intros [= <- <- <-].
      * apply sockRead_some in E as [E1 E2]; [|lia]. split; [exact E1|lia].
      * split; [reflexivity|cbn; lia].
    + destruct (sockRead bufSize inc) as [[d inc1]|] eqn:E; intros [= <- <- <-].
      * apply sockRead_some in E as [E1 E2]; [|unfold bufSize; lia].
        split; [|rewrite length_take; lia].
        cbn [app]. rewrite E1, app_assoc, take_drop. reflexivity.
      * split; [reflexivity|cbn; lia].
  - intros [= <- <- <-]. split; [|rewrite length_take; lia].
    rewrite app_assoc, take_drop. reflexivity.
Qed.

(** With the whole request already in the buffer, [Read] delivers it. *)
Lemma bufRead_buffered (k : nat) (buf : list byte) (inc : list (list byte)) :
  (0 < k <= length buf)%nat -> bufRead k buf inc = (take k buf, drop k buf, inc).
Proof.
  intros Hk. unfold bufRead. destruct (Nat.eqb_spec k 0); [lia|].
  destruct buf; [cbn in Hk; lia|reflexivity].
Qed.

(** ** The submission command *)

Lemma wrap64_small (z : Z) : 0 <= z < 2 ^ 64 -> wrap64 z = z.
Proof. intros H. unfold wrap64. apply Z.mod_small. exact H. Qed.


Lemma putJob_some_inv (msgType : opType) (g g1 : Global) (c c1 : conn) :
  putJob msgType g c = Some (g1, c1) -> fieldsParse c.
Proof.
  unfold putJob, fieldsParse.
  destruct (Nat.eqb_spec (length (Fields (cmd c))) 5) as [Hlen|Hlen]; cbn [negb];
    [|discriminate].
  destruct (Fields (cmd c)) as [|f0 [|f1 [|f2 [|f3 [|f4 [|f5 l]]]]]];
    try discriminate Hlen.
  cbn [nth].
  destruct (ParseUint f1 10 32) as [|p] eqn:E1; [discriminate|].
  destruct (ParseUint f2 10 32) as [|d] eqn:E2; [discriminate|].
  destruct (ParseUint f3 10 32) as [|t] eqn:E3; [discriminate|].
  destruct (ParseUint f4 10 32) as [|B] eqn:E4; [discriminate|].
  intros _. exists f0, f1, f2, f3, f4, p, d, t, B. auto.
Qed.

Lemma msgInserted_eq : msgInserted = bytes "INSERTED 1" ++ crlf.
Proof. reflexivity. Qed.

(** What [putBody] does with the job [putJob] allocated, by the count the
    one [Read] delivers. *)
Lemma putBody_spec (g : Global) (c : conn) (j : job) :
  inJob c = Some j ->
  let n := length (body j) in
  let data := bodyRead n c in
  let c' := (putBody g c).2 in
  let g' := (putBody g c).1 in
  remaining c = data ++ remaining c'
  /\ (length data <= n)%nat
  /\ state c' = connStateSendWord
  /\ outgoing (sock c') = outgoing (sock c)
  /\ writeErrs (sock c') = writeErrs (sock c)
  /\ (length data <> n -> replyBuf c' = msgBadFmt /\ g' = g)
  /\ (length data = n -> HasSuffix data crlf = false ->
        replyBuf c' = msgExpectedCRLF /\ inJob c' = None /\ g' = g)
  /\ (length data = n -> HasSuffix data crlf = true ->
        replyBuf c' = msgInserted /\ inJob c' = None /\ g' = incTotalJobs g).
Proof.
  intros Hj. cbv zeta. unfold putBody, bodyRead. rewrite Hj.
  destruct (bufRead (length (body j)) (reader c) (incoming (sock c)))
    as [[data buf'] inc'] eqn:E.
  apply bufRead_spec in E as [Hcons Hlen]. cbn [fst snd].
  destruct (Nat.eqb_spec (length data) (length (body j))) as [Hfull|Hshort];
    cbn [negb].
  - unfold enqueueIncomingJob. cbn [inJob setInput setInJob].
    rewrite drop_ge by lia. rewrite app_nil_r. cbn [body setBody].
    destruct (HasSuffix data crlf) eqn:Hs; cbn [negb fst snd];
      (split; [exact Hcons|]); (split; [exact Hlen|]);
      repeat split; try reflexivity; try congruence; try tauto.
  - cbn [fst snd]. split; [exact Hcons|]. split; [exact Hlen|].
    repeat split; try reflexivity; try congruence; try tauto.
Qed.

Lemma doCmd_put (g : Global) (c : conn) :
  whichCmd (cmd c) = opPut ->
  doCmd g c = match putJob opPut g c with
              | None => (g, replyMsg c msgBadFmt)
              | Some (g1, c1) => putBody g1 c1
              end.
Proof. intros H. unfold doCmd. rewrite H. reflexivity. Qed.

(** [connData] in [connStateWantCommand]: read the line, dispatch it. *)
Lemma connData_command (g : Global) (c c1 : conn) :
  state c = connStateWantCommand -> readCommand c = Some c1 ->
  connData g c
  = ((doCmd g c1).1, (doCmd g c1).2, [EvCommand (cmd c1) (queuedReply (doCmd g c1).2)]).
Proof.
  unfold connData, readCommand. intros -> H.
  destruct (ReadBytes LF (reader c) (incoming (sock c))) as [[[r|] buf] inc];
    [|discriminate].
  injection H as <-. destruct (doCmd g _) as [g' c']. reflexivity.
Qed.

(** [connData] with a reply to send: one write of the whole reply. *)
Lemma connData_send_ok (g : Global) (c : conn) (s : netConn) :
  state c = connStateSendWord \/ state c = connStateSendJob ->
  sockWrite (replyBuf c) (sock c) = Some s ->
  connData g c = (g, resetConn (setSock s c), [EvWrite (replyBuf c)])
  /\ outgoing s = outgoing (sock c) ++ replyBuf c
  /\ incoming s = incoming (sock c).
Proof.
  intros Hst Hw. split.
  - unfold connData. destruct Hst as [-> | ->]; rewrite Hw; reflexivity.
  - unfold sockWrite in Hw. destruct (writeErrs (sock c)) as [|[k|] errs];
      try discriminate; injection Hw as <-; split; reflexivity.
Qed.

(** *** A submission whose fields parse

    The line of the connection splits into five fields and the last four
    parse, to the priority [p], the delay [d], the time to run [t] and the
    body size [B]. *)

Section ParsedPut.

Variables (g : Global) (c : conn).
Variables (f0 f1 f2 f3 f4 : list byte) (p d t B : Z).

Hypothesis Hfields : Fields (cmd c) = [f0; f1; f2; f3; f4].
Hypothesis Hpri : ParseUint f1 10 32 = inr p.
Hypothesis Hdelay : ParseUint f2 10 32 = inr d.
Hypothesis Httr : ParseUint f3 10 32 = inr t.
Hypothesis Hsize : ParseUint f4 10 32 = inr B.

(** [putJob] counts the command and allocates the job. *)
Lemma putJob_parsed (msgType : opType) :
  putJob msgType g c
  = Some (incOpCount msgType g,
          setInJob (Some (makeJob p d (Z.max t 1000000000) (B + 2))) c).
Proof.
  unfold putJob. rewrite Hfields. cbn [length nth Nat.eqb negb].
  rewrite Hpri, Hdelay, Httr, Hsize. cbv zeta.
  pose proof (ParseUint_bound f4 B Hsize) as HB. unfold maxUint32 in HB.
  rewrite wrap64_small by lia.
  replace (if t <? 1000000000 then 1000000000 else t) with (Z.max t 1000000000)
    by (destruct (Z.ltb_spec t 1000000000); lia).
  reflexivity.
Qed.

(** The time to run [putJob] stores is the parsed one raised to the raw
    constant 1000000000, whatever the parsed value. *)
Lemma put_ttr_floor :
  exists g1 c1 j,
    putJob opPut g c = Some (g1, c1) /\ inJob c1 = Some j
    /\ ttr j = Z.max t 1000000000
    /\ (t < 1000000000 -> ttr j = 1000000000).
Proof.
  rewrite (putJob_parsed opPut).
  eexists _, _, _. split; [reflexivity|]. split; [reflexivity|].
  cbn [ttr makeJob]. split; [reflexivity|]. lia.
Qed.

Hypothesis Hput : whichCmd (cmd c) = opPut.

(** C1, as the code has it: for every submission command whose four fields
    parse, with body size [B], the dispatcher asks the reader once for
    [B + 2] bytes and consumes exactly the bytes that one read delivers.
    When the read is full ([B + 2] bytes), the reply is [INSERTED 1] if and
    only if the final two bytes are CR LF, it is [EXPECTED_CRLF] otherwise,
    and the job is dropped either way; when the read is short, the reply is
    [BAD_FORMAT]. *)
Theorem put_full_read_reply :
  let n := Z.to_nat (B + 2) in
  let data := bodyRead n c in
  let c' := (doCmd g c).2 in
  remaining c = data ++ remaining c'
  /\ (length data <= n)%nat
  /\ (length data = n ->
        (replyBuf c' = msgInserted <-> HasSuffix data crlf = true)
        /\ (HasSuffix data crlf = false -> replyBuf c' = msgExpectedCRLF)
        /\ inJob c' = None)
  /\ (length data <> n -> replyBuf c' = msgBadFmt).
Proof.
  cbv zeta. rewrite (doCmd_put g c Hput), (putJob_parsed opPut).
  set (c1 := setInJob _ c).
  pose proof (putBody_spec (incOpCount opPut g) c1 _ eq_refl) as Hb.
  cbv zeta in Hb. cbn [body makeJob] in Hb. rewrite length_replicate in Hb.
  change (bodyRead (Z.to_nat (B + 2)) c1) with (bodyRead (Z.to_nat (B + 2)) c) in Hb.
  change (remaining c1) with (remaining c) in Hb.
  destruct Hb as (Hcons & Hlen & _ & _ & _ & Hshort & Hbad & Hok).
  split; [exact Hcons|]. split; [exact Hlen|]. split.
  - intros Hfull. destruct (HasSuffix (bodyRead (Z.to_nat (B + 2)) c) crlf) eqn:Hs.
    + destruct (Hok Hfull eq_refl) as (Hr & Hj & _).
      split; [tauto|]. split; [discriminate|exact Hj].
    + destruct (Hbad Hfull eq_refl) as (Hr & Hj & _).
      split; [|split; [intros _; exact Hr|exact Hj]].
      split; [|discriminate]. rewrite Hr. vm_compute. discriminate.
  - intros Hne. exact (proj1 (Hshort Hne)).
Qed.

(** When the reader already holds the [B + 2] bytes, the read is full: the
    reply is [INSERTED 1] or [EXPECTED_CRLF] by the last two of them, and the
    reader is left right after them. *)
Lemma put_buffered_body :
  (Z.to_nat (B + 2) <= length (reader c))%nat ->
  let n := Z.to_nat (B + 2) in
  reader (doCmd g c).2 = drop n (reader c)
  /\ replyBuf (doCmd g c).2
     = if HasSuffix (take n (reader c)) crlf then msgInserted else msgExpectedCRLF.
Proof.
  intros Hlen. cbv zeta. rewrite (doCmd_put g c Hput), (putJob_parsed opPut).
  pose proof (ParseUint_bound f4 B Hsize) as HB. unfold maxUint32 in HB.
  unfold putBody. cbn [inJob setInJob body makeJob reader sock].
  rewrite length_replicate.
  rewrite bufRead_buffered by lia.
  rewrite length_take, Nat.min_l by lia. rewrite Nat.eqb_refl. cbn [negb].
  unfold enqueueIncomingJob. cbn [inJob setInput setInJob body setBody].
  rewrite drop_replicate, Nat.sub_diag. cbn [replicate]. rewrite app_nil_r.
  destruct (HasSuffix (take (Z.to_nat (B + 2)) (reader c)) crlf);
    split; reflexivity.
Qed.

End ParsedPut.

(** The submission of the specification's scenario, [put 1 0 5 5] with the
    body [hello] and its CR LF already buffered: a full read of seven bytes
    and the reply [INSERTED 1]. *)
Lemma put_full_read_reply_witness :
  let c := mkConn (client []) connStateWantCommand (bytes "hello" ++ crlf)
             (bytes "put 1 0 5 5" ++ crlf) [] None in
  whichCmd (cmd c) = opPut
  /\ bodyRead 7 c = bytes "hello" ++ crlf
  /\ remaining c = bodyRead 7 c ++ remaining (doCmd initGlobal c).2
  /\ replyBuf (doCmd initGlobal c).2 = msgInserted.
Proof.
  cbv zeta.
  set (c := mkConn (client []) connStateWantCommand (bytes "hello" ++ crlf)
              (bytes "put 1 0 5 5" ++ crlf) [] None).
  assert (Hw : whichCmd (cmd c) = opPut) by reflexivity.
  pose proof (put_full_read_reply initGlobal c (bytes "put") (bytes "1") (bytes "0")
                (bytes "5") (bytes "5") 1 0 5 5 eq_refl eq_refl eq_refl eq_refl
                eq_refl Hw) as H.
  cbv zeta in H. change (Z.to_nat (5 + 2)) with 7%nat in H.
  destruct H as (Hcons & _ & Hfull & _).
  split; [exact Hw|]. split; [reflexivity|]. split; [exact Hcons|].
  apply (proj1 (Hfull eq_refl)). reflexivity.
Defined.

(** C1 as stated fails: a well-formed submission of 5000 bytes whose body
    and final CR LF arrive with the command in one piece.  The reader holds
    4096 bytes, 16 of them the command line, so the one read of the body
    delivers 4080 bytes instead of 5002 and the reply is [BAD_FORMAT], not
    [INSERTED 1]. *)
Lemma put_large_body_counterexample :
  let c1 := (firstRound [largePut]).1.2 in
  cmd c1 = bytes "put 1 0 5 5000" ++ crlf
  /\ Fields (cmd c1) = [bytes "put"; bytes "1"; bytes "0"; bytes "5"; bytes "5000"]
  /\ ParseUint (bytes "5000") 10 32 = inr 5000
  /\ length largePut = Z.to_nat (16 + 5000 + 2)
  /\ HasSuffix (take (Z.to_nat (5000 + 2)) (drop 16 largePut)) crlf = true
  /\ replyBuf c1 = msgBadFmt
  /\ msgBadFmt <> msgInserted
  /\ remaining c1 = drop (Z.to_nat (16 + 4080)) largePut.
Proof. vm_compute. repeat split; try reflexivity; discriminate. Qed.

(** The same with a short body of five bytes when the transmission is cut
    after [hel]: the read delivers what is buffered. *)
Example put_split_body_bad_format :
  let c1 := (firstRound [bytes "put 1 0 5 5" ++ crlf ++ bytes "hel";
                         bytes "lo" ++ crlf]).1.2 in
  replyBuf c1 = msgBadFmt /\ remaining c1 = bytes "lo" ++ crlf.
Proof. vm_compute. split; reflexivity. Qed.

(** The line [readCommand] stores is the front of the input, up to and
    with its first line feed; the rest is still to be read. *)
Lemma readCommand_remaining (c c1 : conn) :
  readCommand c = Some c1 ->
  remaining c = cmd c1 ++ remaining c1
  /\ (exists l0, cmd c1 = l0 ++ [LF] /\ LF ∉ l0)
  /\ state c1 = state c /\ outgoing (sock c1) = outgoing (sock c)
  /\ writeErrs (sock c1) = writeErrs (sock c).
Proof.
  unfold readCommand. intros H.
  destruct (ReadBytes LF (reader c) (incoming (sock c))) as [[[r|] buf] inc] eqn:E;
    [|discriminate].
  injection H as <-. apply ReadBytes_line in E as [Hcons Hl].
  split; [exact Hcons|]. split; [exact Hl|]. repeat split; reflexivity.
Qed.




(** C2 as stated fails: the line [put] alone has the keyword and none of
    the four fields, and the line [put], a tab, [abc 0 5 5] has a field that
    is no number; neither starts with the four bytes of [cmdPut], so both
    are answered [UNKNOWN_COMMAND] and not [BAD_FORMAT]. *)
Lemma bare_put_counterexample :
  let bare := bytes "put" ++ crlf in
  let tabbed := bytes "put" ++ [x09] ++ bytes "abc 0 5 5" ++ crlf in
  spec_leadingToken bare = bytes "put"
  /\ Fields bare = [bytes "put"]
  /\ replyBuf (firstRound [bare]).1.2 = msgUnknownCommand
  /\ sessionOutput 2 [bare] = bytes "UNKNOWN_COMMAND" ++ crlf
  /\ spec_leadingToken tabbed = bytes "put"
  /\ Fields tabbed = [bytes "put"; bytes "abc"; bytes "0"; bytes "5"; bytes "5"]
  /\ ParseUint (bytes "abc") 10 32 = inl ErrSyntax
  /\ replyBuf (firstRound [tabbed]).1.2 = msgUnknownCommand
  /\ sessionOutput 2 [tabbed] = bytes "UNKNOWN_COMMAND" ++ crlf
  /\ msgUnknownCommand <> msgBadFmt.
Proof. vm_compute. repeat split; try reflexivity. discriminate. Qed.

(** ** The floor on the time to run

    By [put_ttr_floor] the time to run that is stored is the maximum of the
    parsed one and 1000000000. *)

(** C4 on the code: [put 1 0 5 5] asks for a time to run of 5 seconds; the
    job is allocated with 1000000000, not 5. *)
Theorem put_ttr_five_stored_as_raw_floor :
  ttr <$> firstJob [bytes "put 1 0 5 5" ++ crlf ++ bytes "hello" ++ crlf]
  = Some 1000000000
  /\ ParseUint (bytes "5") 10 32 = inr 5.
Proof. split; reflexivity. Qed.

(** ** The bound on the priority *)




(** ** The counters of the submission command *)

Lemma opCountOf_incOpCount (g : Global) (op op' : opType) :
  opCountOf (incOpCount op g) op'
  = if decide (op = op') then wrap64 (opCountOf g op + 1) else opCountOf g op'.
Proof.
  unfold opCountOf, incOpCount. cbn [opCount].
  rewrite lookup_insert. destruct (decide (op = op')); reflexivity.
Qed.

(** The five fields are there and the last four parse. *)
Lemma putJob_some_iff (g : Global) (c : conn) :
  putJob opPut g c <> None <-> fieldsParse c.
Proof.
  split.
  - destruct (putJob opPut g c) as [[g1 c1]|] eqn:E; [|congruence]. intros _.
    exact (putJob_some_inv _ _ _ _ _ E).
  - intros (f0 & f1 & f2 & f3 & f4 & p & d & t & B & HF & H1 & H2 & H3 & H4).
    rewrite (putJob_parsed g c f0 f1 f2 f3 f4 p d t B HF H1 H2 H3 H4 opPut).
    discriminate.
Qed.

(** C7, as the code has it: the command counter of [put] is incremented
    exactly when the four fields parse, before the body is read and whatever
    becomes of the body; the total-jobs counter is incremented exactly when
    the reply is [INSERTED 1]; a [BAD_FORMAT] for a field changes neither. *)
Theorem put_counters (g : Global) (c : conn) :
  whichCmd (cmd c) = opPut ->
  let g' := (doCmd g c).1 in
  let c' := (doCmd g c).2 in
  (~ fieldsParse c -> g' = g /\ replyBuf c' = msgBadFmt)
  /\ (fieldsParse c -> opCountOf g' opPut = wrap64 (opCountOf g opPut + 1))
  /\ (replyBuf c' = msgInserted ->
        totalJobsCount (globalStat g')
        = wrap64 (totalJobsCount (globalStat g) + 1))
  /\ (replyBuf c' <> msgInserted ->
        totalJobsCount (globalStat g') = totalJobsCount (globalStat g)).
Proof.
  intros Hw. cbv zeta. rewrite (doCmd_put g c Hw).
  pose proof (putJob_some_iff g c) as Hiff.
  destruct (putJob opPut g c) as [[g1 c1]|] eqn:E.
  - destruct (putJob_some_inv _ _ _ _ _ E)
      as (f0 & f1 & f2 & f3 & f4 & p & d & t & B & HF & H1 & H2 & H3 & H4).
    rewrite (putJob_parsed g c f0 f1 f2 f3 f4 p d t B HF H1 H2 H3 H4 opPut) in E.
    injection E as <- <-.
    set (c1 := setInJob _ c).
    pose proof (putBody_spec (incOpCount opPut g) c1 _ eq_refl) as Hb.
    cbv zeta in Hb. destruct Hb as (_ & _ & _ & _ & _ & Hshort & Hbad & Hok).
    set (data := bodyRead _ c1) in *.
    assert (Hcases :
      (putBody (incOpCount opPut g) c1).1 = incOpCount opPut g
        /\ replyBuf (putBody (incOpCount opPut g) c1).2 <> msgInserted
      \/ (putBody (incOpCount opPut g) c1).1 = incTotalJobs (incOpCount opPut g)
        /\ replyBuf (putBody (incOpCount opPut g) c1).2 = msgInserted).
    { destruct (decide (length data
                        = length (body (makeJob p d (Z.max t 1000000000) (B + 2)))))
        as [Hfull|Hne].
      - destruct (HasSuffix data crlf) eqn:Hs.
        + right. destruct (Hok Hfull eq_refl) as (Hr & _ & Hg). auto.
        + left. destruct (Hbad Hfull eq_refl) as (Hr & _ & Hg).
          split; [exact Hg|]. rewrite Hr. vm_compute. discriminate.
      - left. destruct (Hshort Hne) as (Hr & Hg).
        split; [exact Hg|]. rewrite Hr. vm_compute. discriminate. }
    assert (Hcount : forall g2, opCountOf g2 opPut = opCountOf (incOpCount opPut g) opPut ->
                       opCountOf g2 opPut = wrap64 (opCountOf g opPut + 1)).
    { intros g2 ->. rewrite opCountOf_incOpCount.
      destruct (decide (opPut = opPut)); [reflexivity|congruence]. }
    split; [intros Hn; exfalso; apply Hn, Hiff; discriminate|].
    destruct Hcases as [[Hg Hr]|[Hg Hr]]; rewrite Hg.
    + split; [intros _; apply Hcount; reflexivity|].
      split; [intros Hi; contradiction|intros _; reflexivity].
    + split; [intros _; apply Hcount; reflexivity|].
      split; [intros _; reflexivity|intros Hi; contradiction].
  - cbn [fst snd]. split; [intros _; split; reflexivity|].
    split; [intros Hp; exfalso; apply Hiff in Hp; congruence|].
    split; [intros Hr; exfalso; revert Hr; vm_compute; discriminate|].
    intros _. reflexivity.
Qed.

Lemma put_counters_witness :
  let c := (accepted [bytes "put 1 0 5 5" ++ crlf ++ bytes "helloXX"]).2 in
  let c1 := mkConn (client []) connStateWantCommand (bytes "helloXX")
              (bytes "put 1 0 5 5" ++ crlf) [] None in
  readCommand c = Some c1
  /\ whichCmd (cmd c1) = opPut
  /\ opCountOf (doCmd initGlobal c1).1 opPut = 1.
Proof.
  cbv zeta.
  set (c1 := mkConn (client []) connStateWantCommand (bytes "helloXX")
               (bytes "put 1 0 5 5" ++ crlf) [] None).
  assert (Hw : whichCmd (cmd c1) = opPut) by reflexivity.
  split; [reflexivity|]. split; [exact Hw|].
  pose proof (put_counters initGlobal c1 Hw) as H. cbv zeta in H.
  destruct H as (_ & H & _).
  rewrite H; [reflexivity|].
  exists (bytes "put"), (bytes "1"), (bytes "0"), (bytes "5"), (bytes "5"), 1, 0, 5, 5.
  repeat split; reflexivity.
Defined.

(** C7 as stated fails: a submission whose body does not end in CR LF is
    answered [EXPECTED_CRLF], and the command counter of [put] has gone from
    0 to 1 all the same; the total-jobs counter has not moved. *)
Lemma put_expected_crlf_counts_counterexample :
  let chunks := [bytes "put 1 0 5 5" ++ crlf ++ bytes "helloXX"] in
  let g0 := (accepted chunks).1 in
  let g1 := (firstRound chunks).1.1 in
  replyBuf (firstRound chunks).1.2 = msgExpectedCRLF
  /\ opCountOf g0 opPut = 0
  /\ opCountOf g1 opPut = 1
  /\ totalJobsCount (globalStat g1) = totalJobsCount (globalStat g0).
Proof. vm_compute. repeat split; reflexivity. Qed.

(** ** The status command *)

(** The report, operand by operand. *)
Lemma Sprintf_statsFmt (z1 z2 z3 z4 z5 z6 z7 z8 z9 : Z) :
  Sprintf statsFmt
    [ArgInt z1; ArgInt z2; ArgInt z3; ArgInt z4; ArgInt z5; ArgInt z6; ArgInt z7;
     ArgInt z8; ArgInt z9]
  = bytes "---" ++ [LF]
    ++ statLine "current-jobs-urgent" z1
    ++ statLine "current-jobs-ready" z2
    ++ statLine "current-jobs-reserved" z3
    ++ statLine "current-jobs-delayed" z4
    ++ statLine "current-jobs-buried" z5
    ++ statLine "cmd-put" z6
    ++ statLine "cmd-use" z7
    ++ statLine "cmd-stats" z8
    ++ statLine "current-connections" z9.
Proof.
  unfold statLine. rewrite <- !app_assoc. cbv -[fmtInt]. reflexivity.
Qed.

(** A non-negative number prints with a digit in front. *)
Lemma fmtInt_nonneg_head (z : Z) :
  0 <= z -> exists c rest, fmtInt z = c :: rest /\ isDigit c = true.
Proof.
  intros Hz. unfold fmtInt. destruct z as [|p|p]; [| |lia].
  - eexists _, _. split; reflexivity.
  - unfold Z.to_int, NilZero.string_of_int, NilZero.string_of_uint.
    destruct (Pos.to_uint p); eexists _, _; split; reflexivity.
Qed.

Lemma doCmd_stats (g : Global) (c : conn) :
  whichCmd (cmd c) = opStats ->
  doCmd g c = (incOpCount opStats g, doStats (incOpCount opStats g) c fmtStats).
Proof. intros H. unfold doCmd. rewrite H. reflexivity. Qed.

(** C3, as the code has it: the reply to the status command is [OK],
    a space, the report and CR LF, with no byte count; the report is the
    [---] line followed by one [key: value] line per field, each ended by a
    line feed, in the order urgent, ready, reserved, delayed, buried,
    cmd-put, cmd-use, cmd-stats, current-connections; the command itself is
    already counted in cmd-stats. *)
Theorem stats_reply_layout (g : Global) (c : conn) :
  whichCmd (cmd c) = opStats ->
  let g' := (doCmd g c).1 in
  let c' := (doCmd g c).2 in
  g' = incOpCount opStats g
  /\ state c' = connStateSendJob
  /\ replyBuf c' = bytes "OK " ++ fmtStats g' ++ crlf
  /\ fmtStats g'
     = bytes "---" ++ [LF]
       ++ statLine "current-jobs-urgent" (urgentCount (globalStat g))
       ++ statLine "current-jobs-ready" (readyCount g)
       ++ statLine "current-jobs-reserved" (reservedCount (globalStat g))
       ++ statLine "current-jobs-delayed" 0
       ++ statLine "current-jobs-buried" (buriedCount (globalStat g))
       ++ statLine "cmd-put" (opCountOf g opPut)
       ++ statLine "cmd-use" (opCountOf g opUse)
       ++ statLine "cmd-stats" (wrap64 (opCountOf g opStats + 1))
       ++ statLine "current-connections" (curConnCount g).
Proof.
  intros Hw. cbv zeta. rewrite (doCmd_stats g c Hw). cbn [fst snd].
  split; [reflexivity|]. split; [reflexivity|]. split.
  - unfold doStats, replyLine, reply. cbn [replyBuf].
    generalize (fmtStats (incOpCount opStats g)). intros r.
    vm_compute. reflexivity.
  - unfold fmtStats, fmtStatsArgs. rewrite Sprintf_statsFmt.
    rewrite !opCountOf_incOpCount.
    repeat (destruct (decide _) as [?|?]; try congruence).
    reflexivity.
Qed.

Lemma stats_reply_layout_witness :
  let c := mkConn (client []) connStateWantCommand [] (bytes "stats" ++ crlf) []
             None in
  whichCmd (cmd c) = opStats
  /\ replyBuf (doCmd initGlobal c).2
     = bytes "OK " ++ fmtStats (doCmd initGlobal c).1 ++ crlf.
Proof.
  cbv zeta.
  set (c := mkConn (client []) connStateWantCommand [] (bytes "stats" ++ crlf) []
              None).
  assert (Hw : whichCmd (cmd c) = opStats) by reflexivity.
  split; [exact Hw|].
  exact (proj1 (proj2 (proj2 (stats_reply_layout initGlobal c Hw)))).
Defined.

(** C3 as stated fails: the reply to [stats] on a fresh session does not
    have the form [OK <n>], CR LF, [n] bytes of report, CR LF, for any
    report: after [OK ] comes the [-] of the report, not a number. *)
Lemma stats_reply_no_length_counterexample :
  let c1 := (firstRound [bytes "stats" ++ crlf]).1.2 in
  cmd c1 = bytes "stats" ++ crlf
  /\ take 7 (replyBuf c1) = bytes "OK ---" ++ [LF]
  /\ ~ exists report, replyBuf c1 = spec_statsReply report.
Proof.
  cbv zeta. split; [reflexivity|]. split; [reflexivity|].
  intros [report H]. unfold spec_statsReply in H.
  destruct (fmtInt_nonneg_head (Z.of_nat (length report)) (Nat2Z.is_nonneg _))
    as (d & rest & Hd & Hdig).
  rewrite Hd in H. apply (f_equal (fun l => nth 3 l x00)) in H.
  vm_compute in H. subst d. discriminate Hdig.
Qed.

(** ** The namespace-select command *)

Lemma Sprintf_using (name : list byte) :
  Sprintf (bytes "USING %s" ++ crlf) [ArgBytes name]
  = bytes "USING " ++ name ++ crlf.
Proof. vm_compute. reflexivity. Qed.

(** The name is the line from its fifth byte on, terminator included. *)
Lemma doCmd_use (g : Global) (c : conn) :
  whichCmd (cmd c) = opUse ->
  doCmd g c
  = (incOpCount opUse g,
     reply c (bytes "USING " ++ drop 4 (cmd c) ++ crlf) connStateSendWord).
Proof.
  intros H. unfold doCmd. rewrite H. cbv zeta.
  unfold replyLine. rewrite Sprintf_using. reflexivity.
Qed.

(** C5 on the code: the session [use foo] is answered with [USING foo],
    CR LF and a second CR LF, fourteen bytes: the name is cut from the line
    with its terminator still on it. *)
Theorem use_foo_reply_has_two_terminators :
  sessionOutput 4 [bytes "use foo" ++ crlf] = bytes "USING foo" ++ crlf ++ crlf
  /\ (session 4 [bytes "use foo" ++ crlf]).2 = true
  /\ sessionOutput 4 [bytes "use foo" ++ crlf] <> bytes "USING foo" ++ crlf.
Proof. vm_compute. repeat split; try reflexivity. discriminate. Qed.

(** ** Classification and the unknown command *)

(** C8, as the code has it: classification is by prefix, tried in the
    order [put ], [stats], [use ], [quit]; a line that starts with none of
    them is answered with exactly [UNKNOWN_COMMAND], no counter moves and
    nothing is read; once the reply is written the connection is back in
    [connStateWantCommand]. *)
Theorem unknown_command_reply (g : Global) (c : conn) :
  whichCmd (cmd c)
  = (if HasPrefix (cmd c) (bytes "put ") then opPut
     else if HasPrefix (cmd c) (bytes "stats") then opStats
     else if HasPrefix (cmd c) (bytes "use ") then opUse
     else if HasPrefix (cmd c) (bytes "quit") then opQuit
     else opUnknown)
  /\ (whichCmd (cmd c) = opUnknown ->
        let c' := (doCmd g c).2 in
        doCmd g c = (g, replyMsg c msgUnknownCommand)
        /\ replyBuf c' = bytes "UNKNOWN_COMMAND" ++ crlf
        /\ state c' = connStateSendWord
        /\ remaining c' = remaining c
        /\ forall (g1 : Global) (s : netConn),
             sockWrite (replyBuf c') (sock c') = Some s ->
             let r := connData g1 c' in
             r.1.1 = g1 /\ r.2 = [EvWrite msgUnknownCommand]
             /\ state r.1.2 = connStateWantCommand
             /\ closed (sock r.1.2) = closed (sock c)
             /\ outgoing (sock r.1.2) = outgoing (sock c) ++ msgUnknownCommand).
Proof.
  split; [reflexivity|].
  intros Hw. cbv zeta. unfold doCmd. rewrite Hw. cbn [fst snd].
  repeat (split; [reflexivity|]).
  intros g1 s Hs.
  destruct (connData_send_ok g1 (replyMsg c msgUnknownCommand) s
              (or_introl eq_refl) Hs) as (-> & Hout & Hin).
  cbn [fst snd]. repeat (split; [reflexivity|]).
  split; [|exact Hout].
  unfold sockWrite in Hs. cbn in Hs.
  destruct (writeErrs (sock c)) as [|[k|] errs]; try discriminate;
    injection Hs as <-; reflexivity.
Qed.

(** The specification's scenario [bogus]: the whole session writes
    [UNKNOWN_COMMAND] and goes on to read the next line. *)
Example bogus_session :
  whichCmd (bytes "bogus" ++ crlf) = opUnknown
  /\ sessionOutput 2 [bytes "bogus" ++ crlf] = bytes "UNKNOWN_COMMAND" ++ crlf
  /\ state (session 2 [bytes "bogus" ++ crlf]).1.1.2 = connStateWantCommand.
Proof. vm_compute. repeat split; reflexivity. Qed.

(** C8 as stated fails: the leading token of the line [quitx] is [quitx],
    none of the four keywords, yet the line is classified as [quit]: no
    reply is written and the connection is closed. *)
Lemma quitx_closes_counterexample :
  let line := bytes "quitx" ++ crlf in
  spec_leadingToken line = bytes "quitx"
  /\ bool_decide (spec_leadingToken line ∈ spec_keywords) = false
  /\ whichCmd line = opQuit
  /\ (session 4 [line]).1.2 = [EvCommand line None; EvClose]
  /\ sessionOutput 4 [line] = []
  /\ closed (sock (session 4 [line]).1.1.2) = true.
Proof. vm_compute. repeat split; reflexivity. Qed.

(** The other way round, the keyword alone is not enough: [put] without
    the space that follows it in [cmdPut] is an unknown command. *)
Example bare_put_unknown :
  spec_leadingToken (bytes "put" ++ crlf) = bytes "put"
  /\ whichCmd (bytes "put" ++ crlf) = opUnknown.
Proof. vm_compute. split; reflexivity. Qed.

(** ** Strict alternation on a connection *)

(** The dispatcher never leaves the connection waiting for a command: it
    leaves a reply to send, or closes. *)
Lemma putBody_state (g : Global) (c : conn) (j : job) :
  inJob c = Some j -> state (putBody g c).2 = connStateSendWord.
Proof.
  intros Hj. pose proof (putBody_spec g c j Hj) as H. cbv zeta in H.
  exact (proj1 (proj2 (proj2 H))).
Qed.

Lemma doCmd_state (g : Global) (c : conn) :
  state (doCmd g c).2 <> connStateWantCommand.
Proof.
  unfold doCmd. destruct (whichCmd (cmd c)) eqn:Hw; cbn [fst snd state];
    try discriminate.
  destruct (putJob opPut g c) as [[g1 c1]|] eqn:E; [|discriminate].
  assert (Hj : exists j, inJob c1 = Some j).
  { unfold putJob in E.
    destruct (negb _); [discriminate|].
    destruct (ParseUint (nth 1 _ _) 10 32); [discriminate|].
    destruct (ParseUint (nth 2 _ _) 10 32); [discriminate|].
    destruct (ParseUint (nth 3 _ _) 10 32); [discriminate|].
    destruct (ParseUint (nth 4 _ _) 10 32); [discriminate|].
    injection E as <- <-. eexists. reflexivity. }
  destruct Hj as [j Hj]. rewrite (putBody_state g1 c1 j Hj). discriminate.
Qed.

Lemma putBody_sock (g : Global) (c : conn) (j : job) :
  inJob c = Some j ->
  outgoing (sock (putBody g c).2) = outgoing (sock c).
Proof.
  intros Hj. pose proof (putBody_spec g c j Hj) as H. cbv zeta in H.
  exact (proj1 (proj2 (proj2 (proj2 H)))).
Qed.

(** The dispatcher writes nothing itself. *)
Lemma doCmd_outgoing (g : Global) (c : conn) :
  outgoing (sock (doCmd g c).2) = outgoing (sock c).
Proof.
  unfold doCmd. destruct (whichCmd (cmd c)) eqn:Hw; cbn [fst snd]; try reflexivity.
  destruct (putJob opPut g c) as [[g1 c1]|] eqn:E; [|reflexivity].
  assert (Hs : outgoing (sock c1) = outgoing (sock c)).
  { unfold putJob in E.
    destruct (negb _); [discriminate|].
    destruct (ParseUint (nth 1 _ _) 10 32); [discriminate|].
    destruct (ParseUint (nth 2 _ _) 10 32); [discriminate|].
    destruct (ParseUint (nth 3 _ _) 10 32); [discriminate|].
    destruct (ParseUint (nth 4 _ _) 10 32); [discriminate|].
    injection E as <- <-. reflexivity. }
  destruct (inJob c1) as [j|] eqn:Hj.
  - rewrite <- Hs. exact (putBody_sock g1 c1 j Hj).
  - unfold putBody. rewrite Hj. exact Hs.
Qed.

Lemma putJob_cmd (msgType : opType) (g g1 : Global) (c c1 : conn) :
  putJob msgType g c = Some (g1, c1) -> c1 = setInJob (inJob c1) c.
Proof.
  unfold putJob. destruct (negb _); [discriminate|].
  destruct (ParseUint (nth 1 _ _) 10 32); [discriminate|].
  destruct (ParseUint (nth 2 _ _) 10 32); [discriminate|].
  destruct (ParseUint (nth 3 _ _) 10 32); [discriminate|].
  destruct (ParseUint (nth 4 _ _) 10 32); [discriminate|].
  intros [= _ <-]. reflexivity.
Qed.

(** The dispatcher keeps the command line it was given. *)
Lemma doCmd_cmd (g : Global) (c : conn) : cmd (doCmd g c).2 = cmd c.
Proof.
  unfold doCmd. destruct (whichCmd (cmd c)); cbn [fst snd]; try reflexivity.
  destruct (putJob opPut g c) as [[g1 c1]|] eqn:E; [|reflexivity].
  apply putJob_cmd in E. apply (f_equal cmd) in E. cbn [cmd setInJob] in E.
  rewrite <- E.
  unfold putBody. destruct (inJob c1) as [j|]; [|reflexivity].
  destruct (bufRead _ _ _) as [[data buf'] inc'].
  destruct (negb _); [reflexivity|].
  unfold enqueueIncomingJob. cbn [inJob setInput setInJob].
  destruct (negb _); reflexivity.
Qed.

Lemma take_length_take (k : nat) (r : list byte) :
  take (length (take k r)) r = take k r.
Proof.
  rewrite length_take. destruct (Nat.le_ge_cases k (length r)) as [H|H].
  - rewrite Nat.min_l by exact H. reflexivity.
  - rewrite Nat.min_r by exact H. rewrite !take_ge by lia. reflexivity.
Qed.

(** One call of [connData]: the events it reports take the connection from
    the phase it is in to the phase it ends in, and what it has written is
    what the events say. *)
Lemma connData_phase (g : Global) (c : conn) (tr : list event) :
  let r := connData g c in
  alternates (phaseOf c) (r.2 ++ tr)
  = (if bool_decide (state c = connStateClose) then alternates Closing tr
     else alternates (phaseOf r.1.2) tr)
  /\ outgoing (sock r.1.2) = outgoing (sock c) ++ written r.2.
Proof.
  cbv zeta. unfold connData, phaseOf at 1.
  destruct (state c) eqn:Hst; cbn [bool_decide decide_rel].
  - destruct (ReadBytes LF (reader c) (incoming (sock c))) as [[[r|] buf] inc].
    + pose proof (doCmd_state g (setCmd r (setInput buf inc c))) as Hs.
      pose proof (doCmd_outgoing g (setCmd r (setInput buf inc c))) as Ho.
      destruct (doCmd g (setCmd r (setInput buf inc c))) as [g' c'].
      cbn [fst snd] in *. split.
      * unfold queuedReply, phaseOf.
        destruct (state c'); try reflexivity. congruence.
      * rewrite Ho. cbn. rewrite app_nil_r. reflexivity.
    + cbn. split; [reflexivity|]. rewrite app_nil_r. reflexivity.
  - unfold sockWrite, sockWriteFailed, sentBeforeError.
    destruct (writeErrs (sock c)) as [|[k|] errs]; cbn;
      rewrite ?take_length_take; rewrite ?bool_decide_eq_true_2 by reflexivity;
      rewrite ?app_nil_r; split; reflexivity.
  - unfold sockWrite, sockWriteFailed, sentBeforeError.
    destruct (writeErrs (sock c)) as [|[k|] errs]; cbn;
      rewrite ?take_length_take; rewrite ?bool_decide_eq_true_2 by reflexivity;
      rewrite ?app_nil_r; split; reflexivity.
  - cbn. split; [reflexivity|]. rewrite app_nil_r. reflexivity.
Qed.

Lemma written_app (a b : list event) : written (a ++ b) = written a ++ written b.
Proof.
  induction a as [|[] a IHa]; cbn; rewrite ?IHa, ?app_assoc; reflexivity.
Qed.

Lemma handleConn_alternates (fuel : nat) (g : Global) (c : conn) :
  let r := handleConn fuel g c in
  alternates (phaseOf c) r.1.2 = true
  /\ outgoing (sock r.1.1.2) = outgoing (sock c) ++ written r.1.2.
Proof.
  revert g c. induction fuel as [|fuel IH]; intros g c; cbv zeta.
  { cbn. rewrite app_nil_r. split; reflexivity. }
  cbn [handleConn].
  pose proof (connData_phase g c) as Hp. cbv zeta in Hp.
  destruct (connData g c) as [[g1 c1] ev] eqn:E. cbn [fst snd] in Hp.
  destruct (bool_decide_reflect (state c1 = connStateClose)) as [Hc1|Hc1].
  - cbn [connClose fst snd]. destruct (Hp [EvClose]) as [Ha Ho]. split.
    + rewrite Ha. case_bool_decide as Hc; [reflexivity|].
      unfold phaseOf. rewrite Hc1. reflexivity.
    + cbn [sock setSock outgoing]. rewrite Ho, written_app. cbn.
      rewrite app_nil_r. reflexivity.
  - specialize (IH g1 c1). cbv zeta in IH.
    destruct (handleConn fuel g1 c1) as [[[g3 c3] tr] fin]. cbn [fst snd] in *.
    destruct IH as [IHa IHo]. destruct (Hp tr) as [Ha Ho]. split.
    + rewrite Ha. case_bool_decide as Hc; [|exact IHa].
      exfalso. unfold connData in E. rewrite Hc in E. injection E as <- <- <-.
      contradiction.
    + rewrite IHo, Ho, written_app, app_assoc. reflexivity.
Qed.

(** The dispatcher reads at the front of the input that is left, and only
    there. *)
Lemma doCmd_consumes (g : Global) (c : conn) :
  exists used, remaining c = used ++ remaining (doCmd g c).2.
Proof.
  unfold doCmd. destruct (whichCmd (cmd c)); cbn [fst snd];
    try (exists []; reflexivity).
  destruct (putJob opPut g c) as [[g1 c1]|] eqn:E; [|exists []; reflexivity].
  assert (Hc1 : remaining c1 = remaining c /\ exists j, inJob c1 = Some j).
  { unfold putJob in E. destruct (negb _); [discriminate|].
    destruct (ParseUint (nth 1 _ _) 10 32); [discriminate|].
    destruct (ParseUint (nth 2 _ _) 10 32); [discriminate|].
    destruct (ParseUint (nth 3 _ _) 10 32); [discriminate|].
    destruct (ParseUint (nth 4 _ _) 10 32); [discriminate|].
    injection E as <- <-. split; [reflexivity|]. eexists. reflexivity. }
  destruct Hc1 as [Hrem [j Hj]].
  pose proof (putBody_spec g1 c1 j Hj) as H. cbv zeta in H.
  destruct H as (Hcons & _). eexists. rewrite <- Hrem. exact Hcons.
Qed.

(** Waiting for a command, [connData] fails when the input left holds no
    line feed; otherwise it cuts the input after its first line feed, stores
    that line as the command and calls the dispatcher on it, once. *)
Lemma connData_want (g : Global) (c : conn) :
  state c = connStateWantCommand ->
  let r := connData g c in
  (LF ∉ remaining c ->
     r.1.1 = g /\ r.2 = [EvReadErr] /\ state r.1.2 = connStateClose
     /\ outgoing (sock r.1.2) = outgoing (sock c))
  /\ (forall l0 rest, remaining c = l0 ++ LF :: rest -> LF ∉ l0 ->
        exists buf inc,
          buf ++ concat inc = rest
          /\ r = (let c1 := setCmd (l0 ++ [LF]) (setInput buf inc c) in
                  ((doCmd g c1).1, (doCmd g c1).2,
                   [EvCommand (l0 ++ [LF]) (queuedReply (doCmd g c1).2)]))).
Proof.
  intros Hst. cbv zeta. unfold connData. rewrite Hst. unfold ReadBytes.
  destruct (readBytesLoop_fuel (S (length (concat (incoming (sock c))))) LF []
              (reader c) (incoming (sock c))) as [[[res buf] inc] Hr]; [lia|].
  rewrite Hr. destruct res as [line|].
  - apply readBytesLoop_line in Hr; [|apply not_elem_of_nil].
    destruct Hr as [Hcons (l1 & -> & Hl1)]. cbn [app] in Hcons. split.
    + intros Hn. exfalso. apply Hn. unfold remaining. rewrite Hcons.
      rewrite !elem_of_app, elem_of_cons. auto.
    + intros l0 rest Hrem Hl0. unfold remaining in Hrem. rewrite Hcons in Hrem.
      rewrite <- app_assoc in Hrem. cbn [app] in Hrem.
      destruct (not_elem_of_app_cons_inv_l LF LF l1 (buf ++ concat inc) l0 rest
                  Hl0 Hl1 Hrem) as (-> & _ & Hrest).
      exists buf, inc. split; [exact Hrest|].
      destruct (doCmd g _) as [g' c']. reflexivity.
  - apply readBytesLoop_error in Hr. split.
    + intros _. cbn [fst snd]. repeat split; reflexivity.
    + intros l0 rest Hrem _. exfalso. apply Hr. unfold remaining in Hrem.
      rewrite Hrem. rewrite elem_of_app, elem_of_cons. auto.
Qed.

(** With a reply to send, [connData] reads nothing and dispatches nothing:
    it writes the whole reply and goes back to waiting, or the write fails,
    a front part of the reply at most is sent, and it closes. *)
Lemma connData_send (g : Global) (c : conn) :
  state c = connStateSendWord \/ state c = connStateSendJob ->
  let r := connData g c in
  r.1.1 = g /\ remaining r.1.2 = remaining c /\ cmd r.1.2 = cmd c
  /\ (r.2 = [EvWrite (replyBuf c)] /\ state r.1.2 = connStateWantCommand
      /\ outgoing (sock r.1.2) = outgoing (sock c) ++ replyBuf c
      \/ exists k, r.2 = [EvWriteErr (take k (replyBuf c))]
           /\ state r.1.2 = connStateClose
           /\ outgoing (sock r.1.2) = outgoing (sock c) ++ take k (replyBuf c)).
Proof.
  intros Hst. cbv zeta.
  unfold connData, sockWrite, sockWriteFailed, sentBeforeError, remaining.
  destruct Hst as [-> | ->]; destruct (writeErrs (sock c)) as [|[k|] errs]; cbn;
    (split; [reflexivity|]); (split; [reflexivity|]); (split; [reflexivity|]);
    first [left; repeat split; reflexivity
          |right; exists k; repeat split; reflexivity].
Qed.

(** C9: on one connection a command is read and parsed only when no reply
    is outstanding, and the reply a command leaves is written whole before
    the connection waits for a command again.

    On the runs of [handleConn] on a freshly accepted socket, whatever the
    number of rounds: the events alternate strictly, and the bytes sent are
    those the events say.

    On the rounds themselves, for every connection and whatever the other
    handlers did to the variables.  A round in [connStateWantCommand]
    cuts one line off the input, at its first line feed, and calls the
    dispatcher on it once; it reads no second line, writes nothing, and
    fails when the input holds no line feed.  The dispatcher reads at the
    front of what follows the line only, writes nothing, and never leaves
    the connection in [connStateWantCommand]: the next round cannot read.
    A round with a reply to send reads nothing, dispatches nothing and
    leaves the command as it is: it sends the whole reply and only then
    makes the connection wait for a command again, or the write fails, a
    front part of the reply at most is sent, and the connection is in
    [connStateClose], where no round reads. *)
Theorem handleConn_strict_alternation (fuel : nat) (g : Global) (s : netConn) :
  let a := makeConn s connStateWantCommand g in
  let r := handleConn fuel a.1 a.2 in
  alternates Idle r.1.2 = true
  /\ outgoing (sock r.1.1.2) = outgoing s ++ written r.1.2
  /\ (forall (g1 : Global) (c : conn),
        state c = connStateWantCommand ->
        let r1 := connData g1 c in
        (LF ∉ remaining c ->
           r1.1.1 = g1 /\ r1.2 = [EvReadErr] /\ state r1.1.2 = connStateClose
           /\ outgoing (sock r1.1.2) = outgoing (sock c))
        /\ (forall l0 rest, remaining c = l0 ++ LF :: rest -> LF ∉ l0 ->
              exists buf inc,
                buf ++ concat inc = rest
                /\ r1 = (let c1 := setCmd (l0 ++ [LF]) (setInput buf inc c) in
                         ((doCmd g1 c1).1, (doCmd g1 c1).2,
                          [EvCommand (l0 ++ [LF]) (queuedReply (doCmd g1 c1).2)]))))
  /\ (forall (g1 : Global) (c : conn),
        state (doCmd g1 c).2 <> connStateWantCommand
        /\ outgoing (sock (doCmd g1 c).2) = outgoing (sock c)
        /\ cmd (doCmd g1 c).2 = cmd c
        /\ exists used, remaining c = used ++ remaining (doCmd g1 c).2)
  /\ (forall (g1 : Global) (c : conn),
        state c = connStateSendWord \/ state c = connStateSendJob ->
        let r1 := connData g1 c in
        r1.1.1 = g1 /\ remaining r1.1.2 = remaining c /\ cmd r1.1.2 = cmd c
        /\ (r1.2 = [EvWrite (replyBuf c)]
            /\ state r1.1.2 = connStateWantCommand
            /\ outgoing (sock r1.1.2) = outgoing (sock c) ++ replyBuf c
            \/ exists k, r1.2 = [EvWriteErr (take k (replyBuf c))]
                 /\ state r1.1.2 = connStateClose
                 /\ outgoing (sock r1.1.2)
                    = outgoing (sock c) ++ take k (replyBuf c)))
  /\ (forall (g1 : Global) (c : conn),
        state c = connStateClose -> connData g1 c = (g1, c, [])).
Proof.
  cbv zeta.
  pose proof (handleConn_alternates fuel
                (makeConn s connStateWantCommand g).1
                (makeConn s connStateWantCommand g).2) as H.
  cbv zeta in H. destruct H as [Ha Ho].
  split; [exact Ha|]. split; [exact Ho|].
  split; [exact connData_want|].
  split.
  { intros g1 c. split; [apply doCmd_state|]. split; [apply doCmd_outgoing|].
    split; [apply doCmd_cmd|apply doCmd_consumes]. }
  split; [exact connData_send|].
  intros g1 c Hst. unfold connData. rewrite Hst. reflexivity.
Qed.

(** A client that sends two commands in one piece: the second is read only
    after the reply to the first is written. *)
Example pipelined_session :
  let line1 := bytes "use a" ++ crlf in
  let line2 := bytes "bogus" ++ crlf in
  (session 6 [line1 ++ line2]).1.2
  = [ EvCommand line1 (Some (bytes "USING a" ++ crlf ++ crlf));
      EvWrite (bytes "USING a" ++ crlf ++ crlf);
      EvCommand line2 (Some msgUnknownCommand);
      EvWrite msgUnknownCommand;
      EvReadErr; EvClose ]
  /\ (session 6 [line1 ++ line2]).2 = true.
Proof. vm_compute. split; reflexivity. Qed.

(** A write that fails after three bytes: the client holds the front of the
    reply, and the handler closes without reading the second command. *)
Example failed_write_session :
  let line1 := bytes "use a" ++ crlf in
  let line2 := bytes "bogus" ++ crlf in
  let s := mkNetConn [line1 ++ line2] [Some 3%nat] [] false in
  let a := makeConn s connStateWantCommand initGlobal in
  let r := handleConn 6 a.1 a.2 in
  r.1.2 = [ EvCommand line1 (Some (bytes "USING a" ++ crlf ++ crlf));
            EvWriteErr (bytes "USI"); EvClose ]
  /\ outgoing (sock r.1.1.2) = bytes "USI"
  /\ remaining r.1.1.2 = line2.
Proof. vm_compute. repeat split; reflexivity. Qed.

(** ** The handler returns *)

Lemma doCmd_remaining (g : Global) (c : conn) :
  (length (remaining (doCmd g c).2) <= length (remaining c))%nat.
Proof.
  unfold doCmd. destruct (whichCmd (cmd c)); cbn [fst snd]; try reflexivity.
  destruct (putJob opPut g c) as [[g1 c1]|] eqn:E; [|reflexivity].
  assert (Hc1 : remaining c1 = remaining c /\ exists j, inJob c1 = Some j).
  { unfold putJob in E. destruct (negb _); [discriminate|].
    destruct (ParseUint (nth 1 _ _) 10 32); [discriminate|].
    destruct (ParseUint (nth 2 _ _) 10 32); [discriminate|].
    destruct (ParseUint (nth 3 _ _) 10 32); [discriminate|].
    destruct (ParseUint (nth 4 _ _) 10 32); [discriminate|].
    injection E as <- <-. split; [reflexivity|]. eexists. reflexivity. }
  destruct Hc1 as [Hrem [j Hj]].
  pose proof (putBody_spec g1 c1 j Hj) as H. cbv zeta in H.
  destruct H as (Hcons & _). rewrite <- Hrem, Hcons, length_app. lia.
Qed.

Lemma connData_rounds (g : Global) (c : conn) :
  state (connData g c).1.2 = connStateClose
  \/ (roundsBound (connData g c).1.2 < roundsBound c)%nat.
Proof.
  unfold connData, roundsBound. destruct (state c) eqn:Hst.
  - destruct (ReadBytes LF (reader c) (incoming (sock c))) as [[[r|] buf] inc] eqn:E;
      [|left; reflexivity].
    apply ReadBytes_line in E as [Hcons (l0 & -> & _)].
    pose proof (doCmd_state g (setCmd (l0 ++ [LF]) (setInput buf inc c))) as Hs.
    pose proof (doCmd_remaining g (setCmd (l0 ++ [LF]) (setInput buf inc c))) as Hr.
    destruct (doCmd g _) as [g' c']. cbn [fst snd] in *.
    assert (Hlen : (length (remaining c') < length (remaining c))%nat).
    { unfold remaining at 2. rewrite Hcons, !length_app. cbn [length].
      unfold remaining in Hr at 2. cbn in Hr. rewrite length_app in Hr. lia. }
    destruct (state c'); [congruence| | |left; reflexivity]; right; lia.
  - unfold sockWrite. destruct (writeErrs (sock c)) as [|[k|] errs]; cbn;
      [right|left|right]; (reflexivity || (unfold remaining; cbn; lia)).
  - unfold sockWrite. destruct (writeErrs (sock c)) as [|[k|] errs]; cbn;
      [right|left|right]; (reflexivity || (unfold remaining; cbn; lia)).
  - left. exact Hst.
Qed.

(** [handleConn] returns: with [roundsBound] rounds or more the loop reaches
    [connStateClose] and closes the socket. *)
Lemma handleConn_returns (fuel : nat) (g : Global) (c : conn) :
  (roundsBound c <= fuel)%nat ->
  (handleConn fuel g c).2 = true
  /\ closed (sock (handleConn fuel g c).1.1.2) = true.
Proof.
  revert g c. induction fuel as [|fuel IH]; intros g c Hf.
  { unfold roundsBound in Hf. destruct (state c); lia. }
  cbn [handleConn]. pose proof (connData_rounds g c) as Hr.
  destruct (connData g c) as [[g1 c1] ev]. cbn [fst snd] in Hr.
  destruct (bool_decide_reflect (state c1 = connStateClose)) as [Hc|Hc].
  - split; reflexivity.
  - destruct Hr as [Hr|Hr]; [contradiction|].
    specialize (IH g1 c1 ltac:(lia)).
    destruct (handleConn fuel g1 c1) as [[[g3 c3] tr] fin]. exact IH.
Qed.

(** ** The job-state gauges *)

Lemma putBody_global (g : Global) (c : conn) :
  (putBody g c).1 = g \/ (putBody g c).1 = incTotalJobs g.
Proof.
  unfold putBody. destruct (inJob c) as [j|]; [|left; reflexivity].
  destruct (bufRead _ _ _) as [[data buf'] inc'].
  destruct (negb _); [left; reflexivity|].
  unfold enqueueIncomingJob. cbn [inJob setInput setInJob].
  destruct (negb _); [left|right]; reflexivity.
Qed.

Lemma putJob_global (g g1 : Global) (c c1 : conn) :
  putJob opPut g c = Some (g1, c1) -> g1 = incOpCount opPut g.
Proof.
  unfold putJob. destruct (negb _); [discriminate|].
  destruct (ParseUint (nth 1 _ _) 10 32); [discriminate|].
  destruct (ParseUint (nth 2 _ _) 10 32); [discriminate|].
  destruct (ParseUint (nth 3 _ _) 10 32); [discriminate|].
  destruct (ParseUint (nth 4 _ _) 10 32); [discriminate|].
  intros [= <- _]. reflexivity.
Qed.

(** The dispatcher leaves the gauges alone. *)
Lemma doCmd_jobGauges (g : Global) (c : conn) :
  jobGauges (doCmd g c).1 = jobGauges g.
Proof.
  unfold doCmd. destruct (whichCmd (cmd c)); cbn [fst snd]; try reflexivity.
  destruct (putJob opPut g c) as [[g1 c1]|] eqn:E; [|reflexivity].
  apply putJob_global in E. subst g1.
  destruct (putBody_global (incOpCount opPut g) c1) as [-> | ->]; reflexivity.
Qed.

Lemma connData_jobGauges (g : Global) (c : conn) :
  jobGauges (connData g c).1.1 = jobGauges g.
Proof.
  unfold connData. destruct (state c).
  - destruct (ReadBytes _ _ _) as [[[r|] buf] inc]; [|reflexivity].
    pose proof (doCmd_jobGauges g (setCmd r (setInput buf inc c))) as H.
    destruct (doCmd g _) as [g' c']. exact H.
  - destruct (sockWrite _ _); reflexivity.
  - destruct (sockWrite _ _); reflexivity.
  - reflexivity.
Qed.

(** No step of the process moves a gauge. *)
Lemma procStep_jobGauges (p q : process) :
  procStep p q -> jobGauges (glob q) = jobGauges (glob p).
Proof.
  intros [p0 s g c H | p0 i c g c' ev Hi Hst H | p0 i c g c' Hi Hst H
          | p0 oc n total]; cbn [glob].
  - unfold makeConn in H. injection H as Hg Hc. rewrite <- Hg. reflexivity.
  - pose proof (connData_jobGauges (glob p0) c) as Hg. rewrite H in Hg. exact Hg.
  - unfold connClose in H. injection H as Hg Hc. rewrite <- Hg. reflexivity.
  - reflexivity.
Qed.

Lemma handleConn_jobGauges (fuel : nat) (g : Global) (c : conn) :
  jobGauges (handleConn fuel g c).1.1.1 = jobGauges g.
Proof.
  revert g c. induction fuel as [|fuel IH]; intros g c; [reflexivity|].
  cbn [handleConn]. pose proof (connData_jobGauges g c) as Hg.
  destruct (connData g c) as [[g1 c1] ev]. cbn [fst snd] in Hg.
  destruct (bool_decide _).
  - cbn. exact Hg.
  - specialize (IH g1 c1). destruct (handleConn fuel g1 c1) as [[[g3 c3] tr] fin].
    cbn [fst snd] in *. congruence.
Qed.

(** C10: in every reachable state of the process the five job-state gauges
    the status report renders are zero: the report starts with the five
    lines saying so, and no step of the process changes any of them. *)
Theorem job_gauges_always_zero (p : process) :
  reachable p ->
  jobGauges (glob p) = [0; 0; 0; 0; 0]
  /\ take 5 (fmtStatsArgs (glob p))
     = [ArgInt 0; ArgInt 0; ArgInt 0; ArgInt 0; ArgInt 0]
  /\ (exists rest,
        fmtStats (glob p)
        = bytes "---" ++ [LF]
          ++ statLine "current-jobs-urgent" 0
          ++ statLine "current-jobs-ready" 0
          ++ statLine "current-jobs-reserved" 0
          ++ statLine "current-jobs-delayed" 0
          ++ statLine "current-jobs-buried" 0
          ++ rest)
  /\ (forall q, procStep p q -> jobGauges (glob q) = jobGauges (glob p)).
Proof.
  intros Hr.
  assert (Hz : jobGauges (glob p) = [0; 0; 0; 0; 0]).
  { induction Hr as [|p q _ IH Hs]; [reflexivity|].
    rewrite (procStep_jobGauges p q Hs). exact IH. }
  split; [exact Hz|].
  unfold jobGauges in Hz. injection Hz as H1 H2 H3 H5.
  split; [|split; [|exact (procStep_jobGauges p)]].
  - unfold fmtStatsArgs. cbn [take]. rewrite H1, H2, H3, H5. reflexivity.
  - eexists. unfold fmtStats, fmtStatsArgs. rewrite Sprintf_statsFmt.
    rewrite H1, H2, H3, H5. reflexivity.
Qed.

(** The process after one accept and the first command of the client, a
    submission. *)
Lemma job_gauges_always_zero_witness :
  let chunks := [bytes "put 1 0 5 5" ++ crlf ++ bytes "hello" ++ crlf] in
  let p := mkProcess (firstRound chunks).1.1 [(firstRound chunks).1.2] in
  reachable p
  /\ totalJobsCount (globalStat (glob p)) = 1
  /\ jobGauges (glob p) = [0; 0; 0; 0; 0].
Proof.
  cbv zeta.
  set (chunks := [bytes "put 1 0 5 5" ++ crlf ++ bytes "hello" ++ crlf]).
  set (r := firstRound chunks).
  assert (Hr : reachable (mkProcess r.1.1 [r.1.2])).
  { apply (ReachStep (mkProcess (accepted chunks).1 [(accepted chunks).2])).
    - apply (ReachStep initProcess); [apply ReachInit|].
      exact (StepAccept initProcess (client chunks) (accepted chunks).1
               (accepted chunks).2 eq_refl).
    - exact (StepData (mkProcess (accepted chunks).1 [(accepted chunks).2]) 0%nat
               (accepted chunks).2 r.1.1 r.1.2 r.2 eq_refl
               ltac:(discriminate) eq_refl). }
  split; [exact Hr|]. split; [reflexivity|].
  exact (proj1 (job_gauges_always_zero _ Hr)).
Defined.

(** * Further properties of the code *)

(** ** What a dispatch does to the package-level variables *)

(** The dispatcher leaves the variables alone, or counts the command it
    classified (a submission, a status or a namespace-select command), or
    counts a submission and the job it inserted. *)
Lemma doCmd_global_cases (g : Global) (c : conn) :
  (doCmd g c).1 = g
  \/ ((doCmd g c).1 = incOpCount (whichCmd (cmd c)) g
      /\ (whichCmd (cmd c) = opPut \/ whichCmd (cmd c) = opStats
          \/ whichCmd (cmd c) = opUse))
  \/ ((doCmd g c).1 = incTotalJobs (incOpCount opPut g)
      /\ whichCmd (cmd c) = opPut).
Proof.
  unfold doCmd. destruct (whichCmd (cmd c)) eqn:Hw; cbn [fst snd]; auto 6.
  destruct (putJob opPut g c) as [[g1 c1]|] eqn:E; [|auto].
  apply putJob_global in E. subst g1.
  destruct (putBody_global (incOpCount opPut g) c1) as [ -> | -> ]; auto 6.
Qed.

Lemma connData_global_cases (g : Global) (c : conn) :
  (connData g c).1.1 = g
  \/ (exists op, (connData g c).1.1 = incOpCount op g
        /\ (op = opPut \/ op = opStats \/ op = opUse))
  \/ (connData g c).1.1 = incTotalJobs (incOpCount opPut g).
Proof.
  unfold connData. destruct (state c).
  - destruct (ReadBytes _ _ _) as [[[r|] buf] inc]; [|auto].
    pose proof (doCmd_global_cases g (setCmd r (setInput buf inc c))) as H.
    destruct (doCmd g _) as [g' c']. cbn [fst snd] in *.
    destruct H as [H|[[H Hop]|[H _]]]; eauto 6.
  - destruct (sockWrite _ _); auto.
  - destruct (sockWrite _ _); auto.
  - auto.
Qed.

(** A dispatch counts under the command it classified and under no other:
    every other command counter and the connection count keep their values,
    and a terminate or an unknown command changes nothing at all. *)
Theorem doCmd_counts_own_command_only (g : Global) (c : conn) (op : opType) :
  op <> whichCmd (cmd c) ->
  opCountOf (doCmd g c).1 op = opCountOf g op
  /\ curConnCount (doCmd g c).1 = curConnCount g
  /\ (whichCmd (cmd c) = opQuit \/ whichCmd (cmd c) = opUnknown ->
        (doCmd g c).1 = g).
Proof.
  intros Hop. destruct (doCmd_global_cases g c) as [H|[[H Hc]|[H Hc]]]; rewrite H.
  - auto.
  - split; [|split; [reflexivity|]].
    + rewrite opCountOf_incOpCount.
      destruct (decide (whichCmd (cmd c) = op)); [congruence|reflexivity].
    + intros [Hq|Hq]; rewrite Hq in Hc; destruct Hc as [?|[?|?]]; discriminate.
  - split; [|split; [reflexivity|]].
    + change (opCountOf (incTotalJobs (incOpCount opPut g)) op)
        with (opCountOf (incOpCount opPut g) op).
      rewrite opCountOf_incOpCount.
      destruct (decide (opPut = op)); [congruence|reflexivity].
    + intros [Hq|Hq]; rewrite Hq in Hc; discriminate.
Qed.

Lemma doCmd_counts_own_command_only_witness :
  let c := mkConn (client []) connStateWantCommand [] (bytes "use tube" ++ crlf) []
             None in
  opPut <> whichCmd (cmd c)
  /\ opCountOf (doCmd initGlobal c).1 opUse = 1
  /\ opCountOf (doCmd initGlobal c).1 opPut = opCountOf initGlobal opPut.
Proof.
  cbv zeta.
  set (c := mkConn (client []) connStateWantCommand [] (bytes "use tube" ++ crlf) []
              None).
  assert (Hne : opPut <> whichCmd (cmd c)) by (vm_compute; discriminate).
  split; [exact Hne|]. split; [reflexivity|].
  exact (proj1 (doCmd_counts_own_command_only initGlobal c opPut Hne)).
Defined.

(** ** The counters over a handler's run

    What follows is about one handler that runs with no other goroutine
    updating the package-level variables meanwhile, as [handleConn] passes
    them from round to round: the program guards none of its updates, so
    with handlers running side by side an update can be lost. *)

(** One round adds one to one command counter at most, to that of the
    submissions when it adds one to the total of jobs, and leaves the
    counters of the terminate and the unknown command alone. *)
Lemma connData_counter_step (g : Global) (c : conn) :
  0 <= opCountOf g opPut -> 0 <= opCountOf g opStats -> 0 <= opCountOf g opUse ->
  0 <= totalJobsCount (globalStat g) ->
  opCountOf g opPut + opCountOf g opStats + opCountOf g opUse + 1 < 2 ^ 64 ->
  totalJobsCount (globalStat g) + 1 < 2 ^ 64 ->
  let g1 := (connData g c).1.1 in
  exists dp ds du dt : Z,
    0 <= dt <= dp /\ 0 <= ds /\ 0 <= du /\ dp + ds + du <= 1
    /\ opCountOf g1 opPut = opCountOf g opPut + dp
    /\ opCountOf g1 opStats = opCountOf g opStats + ds
    /\ opCountOf g1 opUse = opCountOf g opUse + du
    /\ totalJobsCount (globalStat g1) = totalJobsCount (globalStat g) + dt
    /\ opCountOf g1 opQuit = opCountOf g opQuit
    /\ opCountOf g1 opUnknown = opCountOf g opUnknown.
Proof.
  intros Hp Hs Hu Ht Hsum Htot. cbv zeta.
  assert (Hw : forall x, 0 <= x -> x + 1 < 2 ^ 64 -> wrap64 (x + 1) = x + 1).
  { intros x H0 H1. apply wrap64_small. lia. }
  destruct (connData_global_cases g c) as [ -> | [(op & -> & Hop) | -> ]].
  - exists 0, 0, 0, 0. repeat split; lia.
  - rewrite !opCountOf_incOpCount. cbn [globalStat incOpCount].
    destruct Hop as [ -> | [ -> | -> ]];
      repeat (destruct (decide _) as [?|?]; try congruence);
      rewrite Hw by lia;
      [exists 1, 0, 0, 0|exists 0, 1, 0, 0|exists 0, 0, 1, 0]; repeat split; lia.
  - change (opCountOf (incTotalJobs (incOpCount opPut g)))
      with (opCountOf (incOpCount opPut g)).
    rewrite !opCountOf_incOpCount.
    cbn [globalStat incTotalJobs incOpCount totalJobsCount].
    repeat (destruct (decide _) as [?|?]; try congruence).
    rewrite !Hw by lia. exists 1, 0, 0, 1. repeat split; lia.
Qed.

(** Over the rounds of one handler, from counters that are not about to
    wrap around: the counters of the terminate and the unknown command stay
    as they are, no counter goes down, the three command counters move up
    by at most one a round between them, and the total of jobs moves up by
    no more than the counter of the submissions does. *)
Theorem handler_counters (fuel : nat) (g : Global) (c : conn) :
  0 <= opCountOf g opPut -> 0 <= opCountOf g opStats -> 0 <= opCountOf g opUse ->
  0 <= totalJobsCount (globalStat g) ->
  opCountOf g opPut + opCountOf g opStats + opCountOf g opUse + Z.of_nat fuel
    < 2 ^ 64 ->
  totalJobsCount (globalStat g) + Z.of_nat fuel < 2 ^ 64 ->
  let g' := (handleConn fuel g c).1.1.1 in
  opCountOf g' opQuit = opCountOf g opQuit
  /\ opCountOf g' opUnknown = opCountOf g opUnknown
  /\ opCountOf g opPut <= opCountOf g' opPut
  /\ opCountOf g opStats <= opCountOf g' opStats
  /\ opCountOf g opUse <= opCountOf g' opUse
  /\ 0 <= totalJobsCount (globalStat g') - totalJobsCount (globalStat g)
       <= opCountOf g' opPut - opCountOf g opPut
  /\ (opCountOf g' opPut - opCountOf g opPut)
     + (opCountOf g' opStats - opCountOf g opStats)
     + (opCountOf g' opUse - opCountOf g opUse) <= Z.of_nat fuel.
Proof.
  revert g c. induction fuel as [|fuel IH]; intros g c Hp Hs Hu Ht Hsum Htot;
    cbv zeta.
  { cbn [handleConn fst snd]. repeat split; lia. }
  cbn [handleConn].
  pose proof (connData_counter_step g c Hp Hs Hu Ht ltac:(lia) ltac:(lia)) as H1.
  cbv zeta in H1.
  destruct (connData g c) as [[g1 c1] ev]. cbn [fst snd] in H1.
  destruct H1 as (dp & ds & du & dt & Hdt & Hds & Hdu & Hd & Ep & Es & Eu & Et
                  & Eq & En).
  destruct (bool_decide (state c1 = connStateClose)).
  - cbn [connClose fst snd].
    change (opCountOf (setCurConnCount (wrapInt (curConnCount g1 - 1)) g1))
      with (opCountOf g1).
    cbn [globalStat setCurConnCount].
    rewrite Ep, Es, Eu, Et, Eq, En. repeat split; lia.
  - specialize (IH g1 c1 ltac:(lia) ltac:(lia) ltac:(lia) ltac:(lia) ltac:(lia)
                  ltac:(lia)).
    cbv zeta in IH.
    destruct (handleConn fuel g1 c1) as [[[g3 c3] tr] fin]. cbn [fst snd] in *.
    destruct IH as (Iq & In & Ip & Is & Iu & It & Isum).
    rewrite Iq, In, Eq, En. repeat split; lia.
Qed.

Lemma handler_counters_witness :
  let chunks := [bytes "put 1 0 5 5" ++ crlf ++ bytes "hello" ++ crlf
                 ++ bytes "stats" ++ crlf] in
  let g' := (session 5 chunks).1.1.1 in
  totalJobsCount (globalStat g') = 1 /\ opCountOf g' opStats = 1
  /\ totalJobsCount (globalStat g') - 0 <= opCountOf g' opPut - 0.
Proof.
  cbv zeta. split; [reflexivity|]. split; [reflexivity|].
  pose proof (handler_counters 5
                (accepted [bytes "put 1 0 5 5" ++ crlf ++ bytes "hello" ++ crlf
                           ++ bytes "stats" ++ crlf]).1
                (accepted [bytes "put 1 0 5 5" ++ crlf ++ bytes "hello" ++ crlf
                           ++ bytes "stats" ++ crlf]).2
                ltac:(vm_compute; discriminate) ltac:(vm_compute; discriminate)
                ltac:(vm_compute; discriminate) ltac:(vm_compute; discriminate)
                ltac:(reflexivity) ltac:(reflexivity)) as H.
  cbv zeta in H. destruct H as (_ & _ & _ & _ & _ & [_ H] & _). exact H.
Defined.

(** ** The connection count *)

Lemma wrapInt_idemp_add (a b : Z) : wrapInt (wrapInt a + b) = wrapInt (a + b).
Proof.
  unfold wrapInt. f_equal.
  replace ((a + 2 ^ 63) mod 2 ^ 64 - 2 ^ 63 + b + 2 ^ 63)
    with ((a + 2 ^ 63) mod 2 ^ 64 + b) by lia.
  rewrite Zplus_mod_idemp_l. f_equal. lia.
Qed.

Lemma wrapInt_small (z : Z) : - 2 ^ 63 <= z < 2 ^ 63 -> wrapInt z = z.
Proof. intros H. unfold wrapInt. rewrite Z.mod_small by lia. lia. Qed.

Lemma connData_curConnCount (g : Global) (c : conn) :
  curConnCount (connData g c).1.1 = curConnCount g.
Proof.
  destruct (connData_global_cases g c) as [ -> | [(op & -> & _) | -> ]];
    reflexivity.
Qed.

Lemma handleConn_curConnCount (fuel : nat) (g : Global) (c : conn) :
  curConnCount (handleConn fuel g c).1.1.1
  = if (handleConn fuel g c).2 then wrapInt (curConnCount g - 1)
    else curConnCount g.
Proof.
  revert g c. induction fuel as [|fuel IH]; intros g c; [reflexivity|].
  cbn [handleConn]. pose proof (connData_curConnCount g c) as Hg.
  destruct (connData g c) as [[g1 c1] ev]. cbn [fst snd] in Hg.
  destruct (bool_decide (state c1 = connStateClose)).
  - cbn. rewrite Hg. reflexivity.
  - specialize (IH g1 c1). destruct (handleConn fuel g1 c1) as [[[g3 c3] tr] fin].
    cbn [fst snd] in *. rewrite IH, Hg. reflexivity.
Qed.

(** A connection served with no other goroutine updating [curConnCount]
    meanwhile: [makeConn] raises the count by one, no round of the handler
    changes it, and once [handleConn] has returned the count is back where
    it was before the accept (counted as an [int]; the plain numbers while
    the count is within range). *)
Theorem conn_count_over_handler (fuel : nat) (g : Global) (s : netConn) :
  let a := makeConn s connStateWantCommand g in
  let r := handleConn fuel a.1 a.2 in
  curConnCount a.1 = wrapInt (curConnCount g + 1)
  /\ curConnCount r.1.1.1
     = wrapInt (curConnCount g + (if r.2 then 0 else 1))
  /\ (- 2 ^ 63 <= curConnCount g < 2 ^ 63 - 1 ->
        curConnCount r.1.1.1 = curConnCount g + (if r.2 then 0 else 1)).
Proof.
  cbv zeta.
  pose proof (handleConn_curConnCount fuel (makeConn s connStateWantCommand g).1
                (makeConn s connStateWantCommand g).2) as H.
  assert (Hr : curConnCount
                 (handleConn fuel (makeConn s connStateWantCommand g).1
                    (makeConn s connStateWantCommand g).2).1.1.1
               = wrapInt (curConnCount g
                          + (if (handleConn fuel
                                   (makeConn s connStateWantCommand g).1
                                   (makeConn s connStateWantCommand g).2).2
                             then 0 else 1))).
  { rewrite H. cbn [makeConn fst curConnCount setCurConnCount].
    destruct (handleConn fuel _ _).2.
    - unfold Z.sub. rewrite wrapInt_idemp_add. f_equal. lia.
    - reflexivity. }
  split; [reflexivity|]. split; [exact Hr|].
  intros Hrange. rewrite Hr. apply wrapInt_small.
  destruct (handleConn fuel _ _).2; lia.
Qed.

(** ** The handler closes its socket once, and returns *)

Lemma connData_no_close (g : Global) (c : conn) :
  closeCount (connData g c).2 = 0%nat
  /\ closed (sock (connData g c).1.2) = closed (sock c).
Proof.
  unfold connData. destruct (state c).
  - destruct (ReadBytes _ _ _) as [[[r|] buf] inc]; [|split; reflexivity].
    pose proof (doCmd_outgoing g (setCmd r (setInput buf inc c))) as Ho.
    assert (Hcl : closed (sock (doCmd g (setCmd r (setInput buf inc c))).2)
                  = closed (sock c)).
    { unfold doCmd. destruct (whichCmd _); cbn [fst snd]; try reflexivity.
      destruct (putJob opPut g _) as [[g1 c1]|] eqn:E; [|reflexivity].
      assert (Hc1 : closed (sock c1) = closed (sock c)).
      { unfold putJob in E. destruct (negb _); [discriminate|].
        destruct (ParseUint (nth 1 _ _) 10 32); [discriminate|].
        destruct (ParseUint (nth 2 _ _) 10 32); [discriminate|].
        destruct (ParseUint (nth 3 _ _) 10 32); [discriminate|].
        destruct (ParseUint (nth 4 _ _) 10 32); [discriminate|].
        injection E as <- <-. reflexivity. }
      rewrite <- Hc1. unfold putBody. destruct (inJob c1) as [j|]; [|reflexivity].
      destruct (bufRead _ _ _) as [[data buf'] inc'].
      destruct (negb _); [reflexivity|].
      unfold enqueueIncomingJob. cbn [inJob setInput setInJob].
      destruct (negb _); reflexivity. }
    destruct (doCmd g _) as [g' c']. split; [reflexivity|exact Hcl].
  - unfold sockWrite. destruct (writeErrs (sock c)) as [|[k|] errs]; split; reflexivity.
  - unfold sockWrite. destruct (writeErrs (sock c)) as [|[k|] errs]; split; reflexivity.
  - split; reflexivity.
Qed.

Lemma closeCount_app (a b : list event) :
  closeCount (a ++ b) = (closeCount a + closeCount b)%nat.
Proof. induction a as [|[] a IH]; cbn; rewrite ?IH; reflexivity. Qed.

Lemma handleConn_close_once (fuel : nat) (g : Global) (c : conn) :
  let r := handleConn fuel g c in
  closeCount r.1.2 = (if r.2 then 1 else 0)%nat
  /\ (r.2 = true ->
        last r.1.2 = Some EvClose /\ closed (sock r.1.1.2) = true
        /\ state r.1.1.2 = connStateClose).
Proof.
  revert g c. induction fuel as [|fuel IH]; intros g c; cbv zeta.
  { cbn. split; [reflexivity|discriminate]. }
  cbn [handleConn]. pose proof (connData_no_close g c) as [Hn _].
  destruct (connData g c) as [[g1 c1] ev]. cbn [fst snd] in Hn.
  destruct (bool_decide_reflect (state c1 = connStateClose)) as [Hc|Hc].
  - cbn [connClose fst snd]. rewrite closeCount_app, Hn. split; [reflexivity|].
    intros _. rewrite last_snoc. split; [reflexivity|split; [reflexivity|exact Hc]].
  - specialize (IH g1 c1). cbv zeta in IH.
    destruct (handleConn fuel g1 c1) as [[[g3 c3] tr] fin]. cbn [fst snd] in *.
    destruct IH as [IH1 IH2]. rewrite closeCount_app, Hn. split; [exact IH1|].
    intros Hf. destruct (IH2 Hf) as (Hl & Hcl & Hs).
    rewrite last_app, Hl. auto.
Qed.

(** A handler started on an accepted socket returns once the input is used
    up: two rounds per byte of input and two more are enough.  Whatever the
    number of rounds, it closes the socket exactly when it returns, once,
    as the last thing it does. *)
Theorem handler_returns_closing_once (fuel : nat) (g : Global) (s : netConn) :
  let a := makeConn s connStateWantCommand g in
  let r := handleConn fuel a.1 a.2 in
  closeCount r.1.2 = (if r.2 then 1 else 0)%nat
  /\ (r.2 = true ->
        last r.1.2 = Some EvClose /\ closed (sock r.1.1.2) = true
        /\ state r.1.1.2 = connStateClose)
  /\ ((2 * length (concat (incoming s)) + 2 <= fuel)%nat -> r.2 = true).
Proof.
  cbv zeta.
  pose proof (handleConn_close_once fuel (makeConn s connStateWantCommand g).1
                (makeConn s connStateWantCommand g).2) as H.
  cbv zeta in H. destruct H as [H1 H2].
  split; [exact H1|]. split; [exact H2|].
  intros Hf. apply handleConn_returns. exact Hf.
Qed.

(** ** The command line *)

(** Waiting for a command, [connData] takes the input up to its first line
    feed, that byte included, as the command, whatever the chunks it came
    in and however long it is; input without a line feed is never
    dispatched: the read fails at the end of the input, nothing is answered
    and the connection goes to [connStateClose]. *)
Theorem connData_frames_command (g : Global) (c : conn) :
  state c = connStateWantCommand ->
  let r := connData g c in
  (LF ∉ remaining c ->
     r.1.1 = g /\ r.2 = [EvReadErr]
     /\ state r.1.2 = connStateClose
     /\ outgoing (sock r.1.2) = outgoing (sock c))
  /\ (forall l0 rest, remaining c = l0 ++ LF :: rest -> LF ∉ l0 ->
        cmd r.1.2 = l0 ++ [LF]
        /\ r.2 = [EvCommand (l0 ++ [LF]) (queuedReply r.1.2)]).
Proof.
  intros Hst. cbv zeta. unfold connData. rewrite Hst. unfold ReadBytes.
  destruct (readBytesLoop_fuel (S (length (concat (incoming (sock c))))) LF []
              (reader c) (incoming (sock c))) as [[[res buf] inc] Hr]; [lia|].
  rewrite Hr. destruct res as [line|].
  - apply readBytesLoop_line in Hr; [|apply not_elem_of_nil].
    destruct Hr as [Hcons (l1 & -> & Hl1)]. cbn [app] in Hcons. split.
    + intros Hn. exfalso. apply Hn. unfold remaining. rewrite Hcons.
      rewrite !elem_of_app, elem_of_cons. auto.
    + intros l0 rest Hrem Hl0. unfold remaining in Hrem. rewrite Hcons in Hrem.
      rewrite <- app_assoc in Hrem. cbn [app] in Hrem.
      destruct (not_elem_of_app_cons_inv_l LF LF l1 (buf ++ concat inc) l0 rest
                  Hl0 Hl1 Hrem) as (-> & _ & _).
      pose proof (doCmd_cmd g (setCmd (l0 ++ [LF]) (setInput buf inc c))) as Hc.
      destruct (doCmd g _) as [g' c']. cbn [fst snd] in *. split; [exact Hc|].
      reflexivity.
  - apply readBytesLoop_error in Hr. split.
    + intros _. cbn [fst snd]. repeat split; reflexivity.
    + intros l0 rest Hrem _. exfalso. apply Hr. unfold remaining in Hrem.
      rewrite Hrem. rewrite elem_of_app, elem_of_cons. auto.
Qed.

Lemma connData_frames_command_witness :
  let c := (accepted [bytes "st"; bytes "ats" ++ crlf ++ bytes "quit"]).2 in
  state c = connStateWantCommand
  /\ remaining c = (bytes "stats" ++ [CR]) ++ LF :: bytes "quit"
  /\ cmd (connData initGlobal c).1.2 = bytes "stats" ++ crlf.
Proof.
  cbv zeta.
  set (c := (accepted [bytes "st"; bytes "ats" ++ crlf ++ bytes "quit"]).2).
  assert (Hst : state c = connStateWantCommand) by reflexivity.
  assert (Hrem : remaining c = (bytes "stats" ++ [CR]) ++ LF :: bytes "quit")
    by reflexivity.
  split; [exact Hst|]. split; [exact Hrem|].
  pose proof (connData_frames_command initGlobal c Hst) as H. cbv zeta in H.
  destruct H as [_ H].
  destruct (H (bytes "stats" ++ [CR]) (bytes "quit") Hrem
              ltac:(apply (bool_decide_unpack _); vm_compute; exact I))
    as [Hc _].
  exact Hc.
Defined.

(** ** The replies to a submission *)

Lemma putJob_inJob (msgType : opType) (g g1 : Global) (c c1 : conn) :
  putJob msgType g c = Some (g1, c1) ->
  exists j, inJob c1 = Some j /\ outgoing (sock c1) = outgoing (sock c).
Proof.
  unfold putJob. destruct (negb _); [discriminate|].
  destruct (ParseUint (nth 1 _ _) 10 32); [discriminate|].
  destruct (ParseUint (nth 2 _ _) 10 32); [discriminate|].
  destruct (ParseUint (nth 3 _ _) 10 32); [discriminate|].
  destruct (ParseUint (nth 4 _ _) 10 32); [discriminate|].
  intros [= _ <-]. eexists. split; reflexivity.
Qed.

Lemma put_reply_cases (g : Global) (c : conn) :
  whichCmd (cmd c) = opPut ->
  let c' := (doCmd g c).2 in
  state c' = connStateSendWord
  /\ outgoing (sock c') = outgoing (sock c)
  /\ (replyBuf c' = msgBadFmt
      \/ (replyBuf c' = msgExpectedCRLF /\ inJob c' = None)
      \/ (replyBuf c' = msgInserted /\ inJob c' = None)).
Proof.
  intros Hw. cbv zeta. rewrite (doCmd_put g c Hw).
  destruct (putJob opPut g c) as [[g1 c1]|] eqn:E.
  - destruct (putJob_inJob _ _ _ _ _ E) as (j & Hj & Ho).
    pose proof (putBody_spec g1 c1 j Hj) as H. cbv zeta in H.
    destruct H as (_ & _ & Hst & Hout & _ & Hshort & Hbad & Hok).
    split; [exact Hst|]. split; [congruence|].
    destruct (decide (length (bodyRead (length (body j)) c1) = length (body j)))
      as [Hfull|Hne].
    + destruct (HasSuffix (bodyRead (length (body j)) c1) crlf) eqn:Hs.
      * right. right. destruct (Hok Hfull eq_refl) as (Hr & Hn & _). auto.
      * right. left. destruct (Hbad Hfull eq_refl) as (Hr & Hn & _). auto.
    + left. exact (proj1 (Hshort Hne)).
  - cbn [fst snd]. split; [reflexivity|]. split; [reflexivity|]. left. reflexivity.
Qed.

(** A submission is answered, never dropped and never fatal: the dispatcher
    leaves exactly one of [BAD_FORMAT], [EXPECTED_CRLF] and [INSERTED 1] to
    be sent, the identifier being 1 every time, and never closes the
    connection; with the last two the job is gone from the connection. *)
Theorem put_reply_one_of_three (g : Global) (c : conn) :
  whichCmd (cmd c) = opPut ->
  let c' := (doCmd g c).2 in
  state c' = connStateSendWord
  /\ outgoing (sock c') = outgoing (sock c)
  /\ (replyBuf c' = bytes "BAD_FORMAT" ++ crlf
      \/ (replyBuf c' = bytes "EXPECTED_CRLF" ++ crlf /\ inJob c' = None)
      \/ (replyBuf c' = bytes "INSERTED 1" ++ crlf /\ inJob c' = None)).
Proof. intros Hw. exact (put_reply_cases g c Hw). Qed.

Lemma put_reply_one_of_three_witness :
  let c := mkConn (client []) connStateWantCommand (bytes "helloXX")
             (bytes "put 1 0 5 5" ++ crlf) [] None in
  whichCmd (cmd c) = opPut
  /\ state (doCmd initGlobal c).2 = connStateSendWord
  /\ replyBuf (doCmd initGlobal c).2 = bytes "EXPECTED_CRLF" ++ crlf.
Proof.
  cbv zeta.
  set (c := mkConn (client []) connStateWantCommand (bytes "helloXX")
              (bytes "put 1 0 5 5" ++ crlf) [] None).
  assert (Hw : whichCmd (cmd c) = opPut) by reflexivity.
  split; [exact Hw|].
  split; [exact (proj1 (put_reply_one_of_three initGlobal c Hw))|reflexivity].
Defined.

(** On a short read the job is not dropped: the connection keeps it, its
    body the bytes read followed by the zero bytes the buffer was allocated
    with, [B + 2] bytes in all. *)
Theorem put_short_read_keeps_job (g : Global) (c : conn)
    (f0 f1 f2 f3 f4 : list byte) (p d t B : Z) :
  whichCmd (cmd c) = opPut ->
  Fields (cmd c) = [f0; f1; f2; f3; f4] ->
  ParseUint f1 10 32 = inr p -> ParseUint f2 10 32 = inr d ->
  ParseUint f3 10 32 = inr t -> ParseUint f4 10 32 = inr B ->
  let n := Z.to_nat (B + 2) in
  let data := bodyRead n c in
  length data <> n ->
  inJob (doCmd g c).2
  = Some (mkJob p d (Z.max t 1000000000) (B + 2)
            (data ++ replicate (n - length data) x00))
  /\ length (data ++ replicate (n - length data) x00) = n.
Proof.
  intros Hw HF H1 H2 H3 H4. cbv zeta. intros Hne.
  rewrite (doCmd_put g c Hw).
  rewrite (putJob_parsed g c f0 f1 f2 f3 f4 p d t B HF H1 H2 H3 H4 opPut).
  unfold putBody, bodyRead in *. cbn [inJob setInJob body makeJob reader sock] in *.
  rewrite length_replicate.
  pose proof (bufRead_spec (Z.to_nat (B + 2)) (reader c) (incoming (sock c))) as Hs.
  destruct (bufRead (Z.to_nat (B + 2)) (reader c) (incoming (sock c)))
    as [[data buf'] inc']. cbn [fst snd] in *.
  destruct (Hs _ _ _ eq_refl) as [_ Hle].
  destruct (Nat.eqb_spec (length data) (Z.to_nat (B + 2))) as [Hfull|_];
    [contradiction|].
  cbn [negb snd inJob replyMsg reply setInput setInJob setBody].
  rewrite drop_replicate. split; [reflexivity|].
  rewrite length_app, length_replicate. lia.
Qed.

Lemma put_short_read_keeps_job_witness :
  let c := mkConn (client []) connStateWantCommand (bytes "hel")
             (bytes "put 1 0 5 5" ++ crlf) [] None in
  length (bodyRead 7 c) <> 7%nat
  /\ body <$> inJob (doCmd initGlobal c).2
     = Some (bytes "hel" ++ [x00; x00; x00; x00]).
Proof.
  cbv zeta.
  set (c := mkConn (client []) connStateWantCommand (bytes "hel")
              (bytes "put 1 0 5 5" ++ crlf) [] None).
  assert (Hne : length (bodyRead 7 c) <> 7%nat) by (vm_compute; discriminate).
  split; [exact Hne|].
  pose proof (put_short_read_keeps_job initGlobal c (bytes "put") (bytes "1")
                (bytes "0") (bytes "5") (bytes "5") 1 0 5 5 eq_refl eq_refl eq_refl
                eq_refl eq_refl eq_refl Hne) as [H _].
  rewrite H. reflexivity.
Defined.

(** A submission is read through its fields alone: two command lines that
    start with [put ] and split into the same fields are treated alike,
    however the fields are spaced. *)
Theorem put_sees_fields_only (g : Global) (c : conn) (l1 l2 : list byte) :
  whichCmd l1 = opPut -> whichCmd l2 = opPut -> Fields l1 = Fields l2 ->
  doCmd g (setCmd l1 c)
  = ((doCmd g (setCmd l2 c)).1, setCmd l1 (doCmd g (setCmd l2 c)).2).
Proof.
  intros H1 H2 HF. unfold doCmd. cbn [cmd setCmd]. rewrite H1, H2.
  unfold putJob. cbn [cmd setCmd]. rewrite HF.
  destruct (negb _); [reflexivity|].
  destruct (ParseUint (nth 1 _ _) 10 32); [reflexivity|].
  destruct (ParseUint (nth 2 _ _) 10 32); [reflexivity|].
  destruct (ParseUint (nth 3 _ _) 10 32); [reflexivity|].
  destruct (ParseUint (nth 4 _ _) 10 32); [reflexivity|].
  cbv zeta. unfold putBody. cbn [inJob setInJob setCmd reader sock].
  destruct (bufRead _ _ _) as [[data buf'] inc'].
  destruct (negb _); [reflexivity|].
  unfold enqueueIncomingJob. cbn [inJob setInput setInJob].
  destruct (negb _); reflexivity.
Qed.

Lemma put_sees_fields_only_witness :
  let l1 := bytes "put   1" ++ [x09] ++ bytes "0 5  5 " ++ crlf in
  let l2 := bytes "put 1 0 5 5" ++ crlf in
  let c := mkConn (client []) connStateWantCommand (bytes "hello" ++ crlf) [] []
             None in
  Fields l1 = Fields l2
  /\ replyBuf (doCmd initGlobal (setCmd l1 c)).2 = msgInserted.
Proof.
  cbv zeta.
  set (l1 := bytes "put   1" ++ [x09] ++ bytes "0 5  5 " ++ crlf).
  set (l2 := bytes "put 1 0 5 5" ++ crlf).
  set (c := mkConn (client []) connStateWantCommand (bytes "hello" ++ crlf) [] []
              None).
  assert (HF : Fields l1 = Fields l2) by reflexivity.
  split; [exact HF|].
  rewrite (put_sees_fields_only initGlobal c l1 l2 eq_refl eq_refl HF).
  reflexivity.
Defined.

(** ** The terminate command *)

(** A line that starts with [quit] ends the handler in the round that reads
    it: nothing is written, nothing after the line is read, the socket is
    closed and the connection count goes down by one. *)
Theorem quit_returns_unanswered (fuel : nat) (g : Global) (c c1 : conn) :
  state c = connStateWantCommand ->
  readCommand c = Some c1 ->
  whichCmd (cmd c1) = opQuit ->
  let r := handleConn (S fuel) g c in
  r.2 = true
  /\ r.1.2 = [EvCommand (cmd c1) None; EvClose]
  /\ outgoing (sock r.1.1.2) = outgoing (sock c)
  /\ closed (sock r.1.1.2) = true
  /\ remaining r.1.1.2 = remaining c1
  /\ r.1.1.1 = setCurConnCount (wrapInt (curConnCount g - 1)) g.
Proof.
  intros Hst Hrc Hw. cbv zeta. cbn [handleConn].
  rewrite (connData_command g c c1 Hst Hrc).
  destruct (readCommand_remaining c c1 Hrc) as (_ & _ & _ & Hout & _).
  unfold doCmd. rewrite Hw. cbn. rewrite Hout. repeat split; reflexivity.
Qed.

Lemma quit_returns_unanswered_witness :
  let chunks := [bytes "quit" ++ crlf ++ bytes "stats" ++ crlf] in
  let c1 := mkConn (client []) connStateWantCommand (bytes "stats" ++ crlf)
              (bytes "quit" ++ crlf) [] None in
  readCommand (accepted chunks).2 = Some c1
  /\ whichCmd (cmd c1) = opQuit
  /\ sessionOutput 1 chunks = []
  /\ (session 1 chunks).2 = true.
Proof.
  cbv zeta.
  set (chunks := [bytes "quit" ++ crlf ++ bytes "stats" ++ crlf]).
  set (c1 := mkConn (client []) connStateWantCommand (bytes "stats" ++ crlf)
               (bytes "quit" ++ crlf) [] None).
  assert (Hrc : readCommand (accepted chunks).2 = Some c1) by reflexivity.
  assert (Hw : whichCmd (cmd c1) = opQuit) by reflexivity.
  pose proof (quit_returns_unanswered 0 (accepted chunks).1 (accepted chunks).2 c1
                eq_refl Hrc Hw) as H.
  cbv zeta in H. destruct H as (Hfin & _ & Hout & _).
  split; [exact Hrc|]. split; [exact Hw|]. split; [exact Hout|exact Hfin].
Defined.

(** ** What is written *)









(** ** What closes a connection *)

(** The dispatcher closes the connection for a line that starts with [quit]
    and for no other: a malformed or unknown command never costs the client
    its connection. *)
Theorem doCmd_closes_on_quit_only (g : Global) (c : conn) :
  state (doCmd g c).2 = connStateClose <-> whichCmd (cmd c) = opQuit.
Proof.
  destruct (whichCmd (cmd c)) eqn:Hw.
  - destruct (put_reply_cases g c Hw) as (Hs & _). rewrite Hs.
    split; discriminate.
  - rewrite (doCmd_stats g c Hw). cbn. split; discriminate.
  - rewrite (doCmd_use g c Hw). cbn. split; discriminate.
  - unfold doCmd. rewrite Hw. cbn. split; reflexivity.
  - unfold doCmd. rewrite Hw. cbn. split; discriminate.
Qed.

(** ** The fields a submission accepts *)

Lemma parseUintLoop_ok_digits (cutoff maxVal : Z) (s : list byte) (n v : Z) :
  parseUintLoop 10 cutoff maxVal n s = inr v -> forallb isDigit s = true.
Proof.
  revert n. induction s as [|c s IH]; intros n H; [reflexivity|].
  cbn [parseUintLoop] in H. cbn [forallb]. unfold digitOf, isDigit in *.
  cbv zeta in H.
  destruct ((48 <=? bval c) && (bval c <=? 57)) eqn:Hd.
  - cbn [andb]. destruct (10 <=? bval c - 48); [discriminate|].
    destruct (cutoff <=? n); [discriminate|].
    destruct (_ || _); [discriminate|]. exact (IH _ H).
  - destruct ((97 <=? lower (bval c)) && (lower (bval c) <=? 122)) eqn:Hl;
      [|discriminate].
    apply andb_true_iff in Hl as [Hl _]. apply Z.leb_le in Hl.
    destruct (Z.leb_spec 10 (lower (bval c) - 97 + 10)); [discriminate|lia].
Qed.

(** A field of a submission parses exactly when it is a decimal numeral, one
    digit or more and nothing else (no sign, no space, no letter), that
    denotes a number of at most 4294967295; it parses to that number. *)
Theorem put_field_parses_iff_decimal (s : list byte) (v : Z) :
  ParseUint s 10 32 = inr v
  <-> isDecimal s = true /\ decValue s <= maxUint32 /\ v = decValue s.
Proof.
  split.
  - intros H.
    assert (Hd : isDecimal s = true).
    { unfold isDecimal. destruct s as [|c s]; [discriminate|].
      unfold ParseUint in H. apply parseUintLoop_ok_digits in H.
      rewrite H. reflexivity. }
    split; [exact Hd|]. rewrite (ParseUint_decimal s Hd) in H.
    destruct (Z.leb_spec (decValue s) maxUint32); [|discriminate].
    injection H as <-. auto.
  - intros (Hd & Hle & ->). rewrite (ParseUint_decimal s Hd).
    destruct (Z.leb_spec (decValue s) maxUint32); [reflexivity|lia].
Qed.
